(** * PhantomFreq: BLE identity rotation

    A shallow embedding of the four C programs of the repository
    (linux.c, its comment-only duplicate under unnamed/part_000,
    bluetoothFake.c and ESP32.c) together with the properties of the
    payload encoder, the radio sequencer and the scheduling loop.

    C integers are modelled as [Z]; the 31-byte advertising buffer is a
    list of cells updated in place, stores that fall outside the array
    are recorded instead of being dropped; calls to the controller and
    to libc are events, and a computation reads the history of the run
    and returns its value with the events it adds. *)

From Stdlib Require Import Ascii String.
From stdpp Require Import base numbers list strings.

Local Open Scope Z_scope.

(** ** C strings and the advertising buffer *)

(** A [char *] argument is the list of bytes found at the pointer. *)
Definition cstring := list Z.

(** [strlen]: number of bytes before the first NUL (the end of the list
    stands for the terminator of a literal). *)
Fixpoint strlen (s : cstring) : nat :=
  match s with
  | [] => O
  | c :: s' => if c =? 0 then O else S (strlen s')
  end.

Definition bytes_of_string (s : string) : cstring :=
  map (fun a => Z.of_N (N_of_ascii a)) (list_ascii_of_string s).

(** [uint8_t data[31]]: the cells of the array and, kept apart, every
    store whose offset is not an element of the array. *)
Record advbuf := AdvBuf { cells : list Z; spill : list (Z * Z) }.

(** [uint8_t data[31] = {0}] and [memset(adv_data, 0, sizeof(adv_data))]. *)
Definition zeroed31 : advbuf := AdvBuf (replicate 31 0) [].

Definition in_array (i : Z) (b : advbuf) : bool :=
  (0 <=? i) && (i <? Z.of_nat (length (cells b))).

(** A raw byte store at offset [i]. *)
Definition poke (i v : Z) (b : advbuf) : advbuf :=
  if in_array i b
  then AdvBuf (<[Z.to_nat i := v]> (cells b)) (spill b)
  else AdvBuf (cells b) (spill b ++ [(i, v)]).

(** [data[i] = v] with the conversion of [v] to [uint8_t]. *)
Definition store_u8 (i v : Z) (b : advbuf) : advbuf := poke i (v mod 256) b.

(** [memcpy(data + off, src, n)]. *)
Fixpoint memcpy (off : Z) (src : cstring) (n : nat) (b : advbuf) {struct n} : advbuf :=
  match n, src with
  | S n', c :: src' => memcpy (off + 1) src' n' (poke off c b)
  | _, _ => b
  end.

(** The bytes of the array a callee reads when it is given the array and
    the length [n]; what lies behind the array is not modelled. *)
Definition first_bytes (b : advbuf) (n : Z) : list Z :=
  take (Z.to_nat n) (cells b).

(** ** The controller, libc and the trace of calls *)

(** [le_set_advertising_parameters_cp], the fields the programs set
    (the others stay zero after [memset]). *)
Record adv_params_cp := AdvParamsCp {
  min_interval : Z; max_interval : Z; advtype : Z;
  own_bdaddr_type : Z; chan_map : Z; filter : Z }.

(** A command of group [OGF_LE_CTL] handed to [hci_send_cmd], named by
    its OCF, with its parameter block. *)
Inductive hci_cmd :=
| LE_SET_RANDOM_ADDRESS (bdaddr : list Z)
| LE_SET_ADVERTISING_DATA (plen : Z) (param : list Z)
| LE_SET_ADVERTISING_PARAMETERS (cp : adv_params_cp)
| LE_SET_ADVERTISE_ENABLE (enable : Z).

(** [esp_ble_adv_params_t]. *)
Record esp_ble_adv_params_t := EspAdvParams {
  adv_int_min : Z; adv_int_max : Z; adv_type : string;
  own_addr_type : string; channel_map : string; adv_filter_policy : string }.

(** The calls of the ESP-IDF GAP API made by ESP32.c. *)
Inductive esp_call :=
| esp_ble_gap_stop_advertising
| esp_ble_gap_set_rand_addr (rand_addr : list Z)
| esp_ble_gap_config_adv_data_raw (raw_data : list Z) (raw_data_len : Z)
| esp_ble_gap_start_advertising (params : esp_ble_adv_params_t).

(** Everything a run does that is visible from outside, in order. *)
Inductive event :=
| Printf (format : string) (args : list string)
| Perror (msg : string)
| HciSendCmd (sock : Z) (cmd : hci_cmd)
| Sleep (seconds : Z)
| Close (fd : Z)
| EspLogI (tag format : string) (name : string) (mac : list Z)
| EspCall (call : esp_call)
| VTaskDelay (ms : Z).

(** The BlueZ library and the controller behind it: what
    [hci_get_route(NULL)], [hci_open_dev] and [str2ba] give, and the
    value [hci_send_cmd] returns for a command, which may depend on
    everything that happened before. *)
Class BlueZ := {
  hci_get_route : Z;
  hci_open_dev : Z -> Z;
  str2ba : string -> list Z;
  hci_send_cmd_ret : list event -> Z -> hci_cmd -> Z }.

(** A computation reads the history of the run and returns a value with
    the events it adds. *)
Definition io (A : Type) : Type := list event -> A * list event.

Definition ret {A} (a : A) : io A := fun _ => (a, []).

Definition bind {A B} (m : io A) (k : A -> io B) : io B :=
  fun h =>
    let '(a, e1) := m h in
    let '(b, e2) := k a (h ++ e1) in
    (b, e1 ++ e2).

Definition emit (e : event) : io unit := fun _ => (tt, [e]).

Declare Scope io_scope.
Delimit Scope io_scope with io.
Notation "x <- m ;; k" := (bind m (fun x => k))
  (at level 63, m at next level, right associativity) : io_scope.
Notation "m ;;; k" := (bind m (fun _ => k))
  (at level 63, right associativity) : io_scope.
Local Open Scope io_scope.

Definition result {A} (m : io A) (h : list event) : A := fst (m h).
Definition events {A} (m : io A) (h : list event) : list event := snd (m h).

Definition printf (format : string) (args : list string) : io unit :=
  emit (Printf format args).
Definition perror (msg : string) : io unit := emit (Perror msg).
Definition sleep (seconds : Z) : io unit := emit (Sleep seconds).
Definition close (fd : Z) : io unit := emit (Close fd).

(** [hci_send_cmd(sock, OGF_LE_CTL, ocf, plen, param)]. *)
Definition hci_send_cmd `{BlueZ} (sock : Z) (cmd : hci_cmd) : io Z :=
  fun h => (hci_send_cmd_ret h sock cmd, [HciSendCmd sock cmd]).

Definition newline : string := String (ascii_of_nat 10) EmptyString.

(** [a[i]].  Outside the array the C program has no defined behaviour
    and the model gives [d]; the cursor of the loops never gets there. *)
Definition at_index {A} (d : A) (a : list A) (i : Z) : A :=
  default d (a !! Z.to_nat i).

(** [(idx + 1) % 3] on [int], with C's truncating remainder. *)
Definition next_idx (idx : Z) : Z := Z.rem (idx + 1) 3.

(** How a [while (1)] loop stands after some iterations: it left through
    [break], or it is still running with this cursor. *)
Inductive loop_state := Broke | Running (idx : Z).

(** [while (1) { body }] run for at most [fuel] passes; a pass gives
    [None] when it leaves through [break] and the next cursor otherwise. *)
Fixpoint while_true (body : Z -> io (option Z)) (fuel : nat) (idx : Z)
  : io loop_state :=
  match fuel with
  | O => ret (Running idx)
  | S fuel' =>
      r <- body idx ;;
      match r with
      | None => ret Broke
      | Some idx' => while_true body fuel' idx'
      end
  end.

(** ** The functions linux.c, the unnamed duplicate and bluetoothFake.c share

    [set_random_mac], [start_advertising] and [stop_advertising] have the
    same text in the three files. *)
Module Hci.
Section WithBlueZ.
Context `{BlueZ}.

Definition set_random_mac (sock : Z) (mac : list Z) : io unit :=
  r <- hci_send_cmd sock (LE_SET_RANDOM_ADDRESS mac) ;;
  if r <? 0 then perror "HCI_LE_SET_RANDOM_ADDRESS failed" else ret tt.

Definition start_advertising (sock : Z) : io Z :=
  let adv_params_cp := AdvParamsCp 0x00A0 0x00A0 0x00 0x01 0x07 0x00 in
  r <- hci_send_cmd sock (LE_SET_ADVERTISING_PARAMETERS adv_params_cp) ;;
  if r <? 0 then perror "Set advertising parameters failed" ;;; ret (-1)
  else
    r <- hci_send_cmd sock (LE_SET_ADVERTISE_ENABLE 0x01) ;;
    if r <? 0 then perror "Enable advertising failed" ;;; ret (-1)
    else ret 0.

Definition stop_advertising (sock : Z) : io Z :=
  r <- hci_send_cmd sock (LE_SET_ADVERTISE_ENABLE 0x00) ;;
  if r <? 0 then perror "Disable advertising failed" ;;; ret (-1)
  else ret 0.

End WithBlueZ.
End Hci.

(** ** linux.c (and unnamed/part_000, which differs in comments only) *)
Module Linux.
Import Hci.

(** Lines 42-57 of linux.c (49-70 of the unnamed duplicate): the
    buffer and the final [index] of [set_advertising_data]. *)
Definition adv_data (name : cstring) : advbuf * Z :=
  let data := zeroed31 in
  let index := 0 in
  let data := store_u8 index 2 data in
  let index := index + 1 in
  let data := store_u8 index 0x01 data in
  let index := index + 1 in
  let data := store_u8 index 0x06 data in
  let index := index + 1 in
  let name_len := Z.of_nat (strlen name) in
  let name_len := if 29 <? name_len then 29 else name_len in
  let data := store_u8 index (name_len + 1) data in
  let index := index + 1 in
  let data := store_u8 index 0x09 data in
  let index := index + 1 in
  let data := memcpy index name (Z.to_nat name_len) data in
  let index := index + name_len in
  (data, index).

Section WithBlueZ.
Context `{BlueZ}.

(** The buffer is built and then dropped: the call that would send it
    is commented out in the source. *)
Definition set_advertising_data (sock : Z) (name : cstring) : io Z :=
  let '(data, index) := adv_data name in
  ret 0.

Definition names : list string := ["DISP_01"; "DISP_02"; "DISP_03"].
Definition macs_str : list string :=
  ["AA:BB:CC:DD:EE:01"; "AA:BB:CC:DD:EE:02"; "AA:BB:CC:DD:EE:03"].
Definition macs : list (list Z) := map str2ba macs_str.

(** One pass through the body of [while (1)]: [None] for [break],
    otherwise the cursor for the next pass. *)
Definition loop_body (sock : Z) (idx : Z) : io (option Z) :=
  printf ("Broadcasting device %s with MAC %s" +:+ newline)
         [at_index "" names idx; at_index "" macs_str idx] ;;;
  stop_advertising sock ;;;
  set_random_mac sock (at_index [] macs idx) ;;;
  r <- set_advertising_data sock (bytes_of_string (at_index "" names idx)) ;;
  if r <? 0 then ret None
  else
    r <- start_advertising sock ;;
    if r <? 0 then ret None
    else
      let idx := next_idx idx in
      sleep 1 ;;;
      ret (Some idx).

Definition main_loop (fuel : nat) (sock : Z) (idx : Z) : io loop_state :=
  while_true (loop_body sock) fuel idx.

(** [main]: the exit status, or [None] while the loop has not ended
    within [fuel] passes. *)
Definition main (fuel : nat) : io (option Z) :=
  let dev_id := hci_get_route in
  let sock := hci_open_dev dev_id in
  if sock <? 0 then perror "opening HCI device" ;;; ret (Some 1)
  else
    st <- main_loop fuel sock 0 ;;
    match st with
    | Running _ => ret None
    | Broke =>
        stop_advertising sock ;;;
        close sock ;;;
        ret (Some 0)
    end.

End WithBlueZ.
End Linux.

(** ** bluetoothFake.c *)
Module BluetoothFake.
Import Hci.

(** Lines 41-65 of bluetoothFake.c. *)
Definition adv_data (name : cstring) : advbuf * Z :=
  let data := zeroed31 in
  let index := 0 in
  let data := store_u8 index 2 data in
  let index := index + 1 in
  let data := store_u8 index 0x01 data in
  let index := index + 1 in
  let data := store_u8 index 0x06 data in
  let index := index + 1 in
  let data := store_u8 index 3 data in
  let index := index + 1 in
  let data := store_u8 index 0x03 data in
  let index := index + 1 in
  let data := store_u8 index 0x0D data in
  let index := index + 1 in
  let data := store_u8 index 0x18 data in
  let index := index + 1 in
  let name_len := Z.of_nat (strlen name) in
  let name_len := if (31 - index - 2) <? name_len then 31 - index - 2 else name_len in
  let data := store_u8 index (name_len + 1) data in
  let index := index + 1 in
  let data := store_u8 index 0x09 data in
  let index := index + 1 in
  let data := memcpy index name (Z.to_nat name_len) data in
  let index := index + name_len in
  (data, index).

Section WithBlueZ.
Context `{BlueZ}.

Definition set_advertising_data (sock : Z) (name : cstring) : io Z :=
  let '(data, index) := adv_data name in
  r <- hci_send_cmd sock (LE_SET_ADVERTISING_DATA index (first_bytes data index)) ;;
  if r <? 0 then perror "HCI_LE_SET_ADVERTISING_DATA failed" ;;; ret (-1)
  else ret 0.

Definition names : list string := ["HRM_Brac_01"; "HRM_Brac_02"; "HRM_Brac_03"].
Definition macs_str : list string :=
  ["AA:BB:CC:DD:EE:01"; "AA:BB:CC:DD:EE:02"; "AA:BB:CC:DD:EE:03"].
Definition macs : list (list Z) := map str2ba macs_str.

Definition loop_body (sock : Z) (idx : Z) : io (option Z) :=
  printf ("Transmitindo como: %s | MAC: %s" +:+ newline)
         [at_index "" names idx; at_index "" macs_str idx] ;;;
  stop_advertising sock ;;;
  set_random_mac sock (at_index [] macs idx) ;;;
  r <- set_advertising_data sock (bytes_of_string (at_index "" names idx)) ;;
  if r <? 0 then ret None
  else
    r <- start_advertising sock ;;
    if r <? 0 then ret None
    else
      sleep 2 ;;;
      let idx := next_idx idx in
      ret (Some idx).

Definition main_loop (fuel : nat) (sock : Z) (idx : Z) : io loop_state :=
  while_true (loop_body sock) fuel idx.

Definition main (fuel : nat) : io (option Z) :=
  let dev_id := hci_get_route in
  if dev_id <? 0 then perror "Nenhum dispositivo HCI disponível" ;;; ret (Some 1)
  else
    let sock := hci_open_dev dev_id in
    if sock <? 0 then perror "Falha ao abrir o dispositivo HCI" ;;; ret (Some 1)
    else
      printf ("Iniciando simulação de dispositivos BLE..." +:+ newline) [] ;;;
      st <- main_loop fuel sock 0 ;;
      match st with
      | Running _ => ret None
      | Broke =>
          printf (newline +:+ "Parando anúncio e fechando socket." +:+ newline) [] ;;;
          stop_advertising sock ;;;
          close sock ;;;
          ret (Some 0)
      end.

End WithBlueZ.
End BluetoothFake.

(** ** ESP32.c *)
Module ESP32.

Definition TAG : string := "BLE_FAKE".
Definition device_names : list string := ["DISP_01"; "DISP_02"; "DISP_03"].
Definition device_macs : list (list Z) :=
  [ [0xAA; 0xBB; 0xCC; 0xDD; 0xEE; 0x01];
    [0xAA; 0xBB; 0xCC; 0xDD; 0xEE; 0x02];
    [0xAA; 0xBB; 0xCC; 0xDD; 0xEE; 0x03] ].

Definition adv_params : esp_ble_adv_params_t :=
  EspAdvParams 0x20 0x40 "ADV_TYPE_IND" "BLE_ADDR_TYPE_RANDOM"
               "ADV_CHNL_ALL" "ADV_FILTER_ALLOW_SCAN_ANY_CON_ANY".

(** Lines 47-65 of ESP32.c: the buffer and the final [i] of
    [start_advertising]. *)
Definition adv_data (name : cstring) : advbuf * Z :=
  let adv_data := zeroed31 in
  let i := 0 in
  let adv_data := store_u8 i 2 adv_data in
  let i := i + 1 in
  let adv_data := store_u8 i 0x01 adv_data in
  let i := i + 1 in
  let adv_data := store_u8 i 0x06 adv_data in
  let i := i + 1 in
  let name_len := Z.of_nat (strlen name) in
  let name_len := if 29 <? name_len then 29 else name_len in
  let adv_data := store_u8 i (name_len + 1) adv_data in
  let i := i + 1 in
  let adv_data := store_u8 i 0x09 adv_data in
  let i := i + 1 in
  let adv_data := memcpy i name (Z.to_nat name_len) adv_data in
  let i := i + name_len in
  (adv_data, i).
(** The value every GAP call returns is dropped by the program. *)
Definition esp (c : esp_call) : io unit := emit (EspCall c).

Definition start_advertising (name : cstring) : io unit :=
  let '(adv_data, i) := adv_data name in
  esp (esp_ble_gap_config_adv_data_raw (first_bytes adv_data i) i).

(** One pass through the body of [while (1)], from the global
    [current_idx] to its new value. *)
Definition loop_body (current_idx : Z) : io Z :=
  emit (EspLogI TAG ">> Device: %s, MAC: %02X:%02X:%02X:%02X:%02X:%02X"
                (at_index "" device_names current_idx)
                (at_index [] device_macs current_idx)) ;;;
  esp esp_ble_gap_stop_advertising ;;;
  esp (esp_ble_gap_set_rand_addr (at_index [] device_macs current_idx)) ;;;
  start_advertising (bytes_of_string (at_index "" device_names current_idx)) ;;;
  esp (esp_ble_gap_start_advertising adv_params) ;;;
  let current_idx := next_idx current_idx in
  emit (VTaskDelay 2000) ;;;
  ret current_idx.

(** [advertising_loop_task]: the loop has no [break]; after [fuel]
    passes it is running with the global [current_idx] returned. *)
Definition advertising_loop_task (fuel : nat) (current_idx : Z) : io loop_state :=
  while_true (fun idx => idx' <- loop_body idx ;; ret (Some idx')) fuel current_idx.

End ESP32.

(** ** The Radio interface of the specification

    The five operations of a switch, and the operation each controller
    call stands for.  [esp_ble_gap_start_advertising] carries the
    parameters and enables advertising in one call. *)
Inductive radio_op := Stop | SetAddress | SetPayload | SetParameters | Start.

Definition ops_of_event (e : event) : list radio_op :=
  match e with
  | HciSendCmd _ (LE_SET_ADVERTISE_ENABLE en) => if en =? 0 then [Stop] else [Start]
  | HciSendCmd _ (LE_SET_RANDOM_ADDRESS _) => [SetAddress]
  | HciSendCmd _ (LE_SET_ADVERTISING_DATA _ _) => [SetPayload]
  | HciSendCmd _ (LE_SET_ADVERTISING_PARAMETERS _) => [SetParameters]
  | EspCall esp_ble_gap_stop_advertising => [Stop]
  | EspCall (esp_ble_gap_set_rand_addr _) => [SetAddress]
  | EspCall (esp_ble_gap_config_adv_data_raw _ _) => [SetPayload]
  | EspCall (esp_ble_gap_start_advertising _) => [SetParameters; Start]
  | _ => []
  end.

Definition radio_ops (tr : list event) : list radio_op :=
  concat (map ops_of_event tr).

Definition switch_order : list radio_op :=
  [Stop; SetAddress; SetPayload; SetParameters; Start].

(** The events of a run of [while_true], pass by pass: one list per
    identity switch. *)
Fixpoint cycles (body : Z -> io (option Z)) (fuel : nat) (idx : Z)
         (h : list event) : list (list event) :=
  match fuel with
  | O => []
  | S fuel' =>
      let '(r, e) := body idx h in
      e :: match r with
           | None => []
           | Some idx' => cycles body fuel' idx' (h ++ e)
           end
  end.

(** The cursor after [n] advances. *)
Definition cursor_after (n : nat) (idx : Z) : Z := Nat.iter n next_idx idx.

(** The cursors of [n] successive switches, starting with [idx]. *)
Fixpoint visited (n : nat) (idx : Z) : list Z :=
  match n with
  | O => []
  | S n' => idx :: visited n' (next_idx idx)
  end.

(** The names ESP32.c logs, one per pass. *)
Definition logged_names (tr : list event) : list string :=
  omap (fun e => match e with EspLogI _ _ name _ => Some name | _ => None end) tr.

(** The names the Linux programs print, one per pass. *)
Definition printed_names (tr : list event) : list string :=
  omap (fun e => match e with Printf _ (name :: _) => Some name | _ => None end) tr.

(** ** Inputs used below and the truncation rule of the specification *)

Definition name27 : cstring := bytes_of_string "ABCDEFGHIJKLMNOPQRSTUVWXYZ0".
Definition name23 : cstring := bytes_of_string "HRM_Bracelet_Device_023".

(** The truncation rule in the words of the specification: the kept
    length [k] is the largest one, not above the length of the name,
    with [3 + (3 if a service UUID is present) + 2 + k <= 31]. *)
Definition spec_fits (uuid : bool) (k : nat) : Prop :=
  (3 + (if uuid then 3 else 0) + 2 + k <= 31)%nat.

Definition spec_truncation (uuid : bool) (name_len kept : nat) : Prop :=
  (kept <= name_len)%nat /\ spec_fits uuid kept /\
  forall k', (k' <= name_len)%nat -> spec_fits uuid k' -> (k' <= kept)%nat.

(** The number of name bytes an encoder built, given the offset at which
    the name starts. *)
Definition kept_len (enc : advbuf * Z) (name_off : Z) : nat :=
  Z.to_nat (snd enc - name_off).

(** ** Observations on one identity switch *)


(** A pass that starts with its log line, then the stop command, then
    at most the report of a failed stop, then the set-address command. *)
Definition stop_then_address (sock : Z) (c : list event) : Prop :=
  exists line log mac rest,
    c = line :: HciSendCmd sock (LE_SET_ADVERTISE_ENABLE 0)
          :: log ++ HciSendCmd sock (LE_SET_RANDOM_ADDRESS mac) :: rest /\
    (log = [] \/ log = [Perror "Disable advertising failed"]).

(** The command whose failure makes linux.c leave its loop. *)
Definition params_or_start (c : hci_cmd) : Prop :=
  (exists cp, c = LE_SET_ADVERTISING_PARAMETERS cp) \/ c = LE_SET_ADVERTISE_ENABLE 1.

(** ** Concrete controllers *)

Definition hex_digit (a : ascii) : Z :=
  let n := Z.of_N (N_of_ascii a) in
  if (48 <=? n) && (n <=? 57) then n - 48
  else if (65 <=? n) && (n <=? 70) then n - 55
  else if (97 <=? n) && (n <=? 102) then n - 87
  else 0.

Fixpoint hex_pairs (s : string) : list Z :=
  match s with
  | String a (String b rest) =>
      (16 * hex_digit a + hex_digit b)
        :: match rest with
           | String _ rest' => hex_pairs rest'
           | EmptyString => []
           end
  | _ => []
  end.

(** A controller on device 0, socket 3, whose reply depends on the
    command alone; [str2ba] stores the six bytes of the text in reverse
    order, as BlueZ does. *)
Definition controller (reply : hci_cmd -> Z) : BlueZ :=
  {| hci_get_route := 0;
     hci_open_dev := fun _ => 3;
     str2ba := fun s => reverse (hex_pairs s);
     hci_send_cmd_ret := fun _ _ c => reply c |}.

Definition always_ok : BlueZ := controller (fun _ => 0).

Definition address_fails : BlueZ :=
  controller (fun c => match c with LE_SET_RANDOM_ADDRESS _ => -1 | _ => 0 end).

Definition start_fails : BlueZ :=
  controller (fun c => match c with LE_SET_ADVERTISE_ENABLE 1 => -1 | _ => 0 end).

Definition stop_fails : BlueZ :=
  controller (fun c => match c with LE_SET_ADVERTISE_ENABLE 0 => -1 | _ => 0 end).
(** ** Further observations on the encoders *)

(** The stores of consecutive bytes from offset [off] on, as [spill]
    records them. *)
Fixpoint spill_of (off : Z) (bytes : list Z) : list (Z * Z) :=
  match bytes with
  | [] => []
  | c :: bytes' => (off, c) :: spill_of (off + 1) bytes'
  end.

(** Reading a payload as advertising-data records: a length byte, then
    that many bytes, the first of which is the type.  The records must
    use up the bytes exactly; a length of zero is refused. *)
Fixpoint ad_records (fuel : nat) (bytes : list Z) : option (list (Z * list Z)) :=
  match bytes, fuel with
  | [], _ => Some []
  | _, O => None
  | len :: rest, S fuel' =>
      match rest with
      | [] => None
      | ty :: value_rest =>
          let n := Z.to_nat (len - 1) in
          if (1 <=? len) && (n <=? length value_rest)%nat
          then option_map (cons (ty, take n value_rest))
                          (ad_records fuel' (drop n value_rest))
          else None
      end
  end.

Definition parse_ad (bytes : list Z) : option (list (Z * list Z)) :=
  ad_records (length bytes) bytes.

(** ** Further observations on a trace *)

(** The payloads handed to the controller: the declared length and the
    bytes. *)
Definition payloads (tr : list event) : list (Z * list Z) :=
  omap (fun e => match e with
                 | HciSendCmd _ (LE_SET_ADVERTISING_DATA plen param) => Some (plen, param)
                 | EspCall (esp_ble_gap_config_adv_data_raw raw len) => Some (len, raw)
                 | _ => None
                 end) tr.

(** The addresses programmed. *)
Definition addresses (tr : list event) : list (list Z) :=
  omap (fun e => match e with
                 | HciSendCmd _ (LE_SET_RANDOM_ADDRESS mac) => Some mac
                 | EspCall (esp_ble_gap_set_rand_addr mac) => Some mac
                 | _ => None
                 end) tr.

(** The waits between switches: seconds of [sleep], milliseconds of
    [vTaskDelay]. *)
Definition sleeps (tr : list event) : list Z :=
  omap (fun e => match e with Sleep s => Some s | _ => None end) tr.

Definition delays (tr : list event) : list Z :=
  omap (fun e => match e with VTaskDelay ms => Some ms | _ => None end) tr.

(** The descriptors closed and the sockets commands were sent on. *)
Definition closes (tr : list event) : list Z :=
  omap (fun e => match e with Close fd => Some fd | _ => None end) tr.

Definition command_sockets (tr : list event) : list Z :=
  omap (fun e => match e with HciSendCmd s _ => Some s | _ => None end) tr.

(** The number of passes of a run that reached their end. *)
Fixpoint completed_passes (body : Z -> io (option Z)) (fuel : nat) (idx : Z)
         (h : list event) : nat :=
  match fuel with
  | O => O
  | S fuel' =>
      match body idx h with
      | (Some idx', e) => S (completed_passes body fuel' idx' (h ++ e))
      | (None, _) => O
      end
  end.

(** A command whose failure makes bluetoothFake.c leave its loop. *)
Definition fatal_cmd (c : hci_cmd) : Prop :=
  (exists plen param, c = LE_SET_ADVERTISING_DATA plen param) \/ params_or_start c.

Definition data_fails : BlueZ :=
  controller (fun c => match c with LE_SET_ADVERTISING_DATA _ _ => -1 | _ => 0 end).

Definition params_fails : BlueZ :=
  controller (fun c => match c with LE_SET_ADVERTISING_PARAMETERS _ => -1 | _ => 0 end).

Definition no_device : BlueZ :=
  {| hci_get_route := -1;
     hci_open_dev := fun _ => -1;
     str2ba := fun s => reverse (hex_pairs s);
     hci_send_cmd_ret := fun _ _ _ => 0 |}.

(** A payload of bluetoothFake.c as the controller should get it: the
    declared length is the number of bytes, at most 31, and the bytes
    are a flags record, the heart-rate service list and a complete-name
    record of at most 22 bytes. *)
Definition well_formed_payload (p : Z * list Z) : Prop :=
  fst p = Z.of_nat (length (snd p)) /\
  fst p <= 31 /\
  exists name,
    (length name <= 22)%nat /\
    parse_ad (snd p) = Some [(0x01, [0x06]); (0x03, [0x0D; 0x18]); (0x09, name)].

(** ** The GAP callback of ESP32.c *)

(** [esp_gap_ble_cb_event_t]: the two events the callback tells apart,
    and any other by its number. *)
Inductive esp_gap_ble_cb_event_t :=
| ESP_GAP_BLE_ADV_DATA_RAW_SET_COMPLETE_EVT
| ESP_GAP_BLE_ADV_START_COMPLETE_EVT
| ESP_GAP_BLE_OTHER_EVT (code : Z).

(** A line written with [ESP_LOGI] or [ESP_LOGE]. *)
Inductive esp_log := LogI (tag msg : string) | LogE (tag msg : string).

(** [gap_cb(event, param)], where of [param] only
    [param->adv_start_cmpl.status] is read: the lines it logs.  The
    value of [ESP_BT_STATUS_SUCCESS] comes from a header of ESP-IDF and
    is taken as an argument. *)
Definition gap_cb (ESP_BT_STATUS_SUCCESS : Z)
           (event : esp_gap_ble_cb_event_t) (adv_start_cmpl_status : Z)
  : list esp_log :=
  match event with
  | ESP_GAP_BLE_ADV_DATA_RAW_SET_COMPLETE_EVT =>
      [LogI ESP32.TAG "Advertising data set"]
  | ESP_GAP_BLE_ADV_START_COMPLETE_EVT =>
      if adv_start_cmpl_status =? ESP_BT_STATUS_SUCCESS
      then [LogI ESP32.TAG "Advertising started"]
      else [LogE ESP32.TAG "Failed to start advertising"]
  | ESP_GAP_BLE_OTHER_EVT _ => []
  end.

Definition is_error_line (l : esp_log) : bool :=
  match l with LogE _ _ => true | LogI _ _ => false end.

(** * Properties *)

(** ** The buffer *)

Lemma strlen_le_length (s : cstring) : (strlen s <= length s)%nat.
Proof.
  induction s as [|c s IH]; simpl; [lia|].
  destruct (c =? 0); lia.
Qed.

Lemma poke_in_array (i v : Z) (b : advbuf) :
  0 <= i < Z.of_nat (length (cells b)) ->
  poke i v b = AdvBuf (<[Z.to_nat i := v]> (cells b)) (spill b).
Proof.
  intros Hi. unfold poke, in_array.
  replace (0 <=? i) with true by (symmetry; apply Z.leb_le; lia).
  replace (i <? Z.of_nat (length (cells b))) with true
    by (symmetry; apply Z.ltb_lt; lia).
  reflexivity.
Qed.

(** A copy that stays inside the array replaces exactly the [n] cells
    from [off] on and spills nothing. *)
Lemma memcpy_in_array (n : nat) :
  forall (src : cstring) (off : Z) (b : advbuf),
    (n <= length src)%nat ->
    0 <= off ->
    off + Z.of_nat n <= Z.of_nat (length (cells b)) ->
    memcpy off src n b =
    AdvBuf (take (Z.to_nat off) (cells b) ++ take n src
              ++ drop (Z.to_nat off + n) (cells b)) (spill b).
Proof.
  induction n as [|n IH]; intros src off b Hsrc Hoff Hfit.
  - destruct b as [l sp]; simpl.
    rewrite Nat.add_0_r, take_drop. reflexivity.
  - destruct src as [|c src]; [simpl in Hsrc; lia|].
    simpl in Hsrc. simpl memcpy.
    rewrite poke_in_array by lia.
    rewrite IH; simpl; [|lia|lia|rewrite length_insert; lia].
    f_equal.
    replace (Z.to_nat (off + 1)) with (S (Z.to_nat off)) by lia.
    assert (Hlt : (Z.to_nat off < length (cells b))%nat) by lia.
    rewrite (take_S_r _ _ c) by (apply list_lookup_insert_eq; exact Hlt).
    rewrite take_insert_ge by lia.
    rewrite drop_insert_lt by lia.
    rewrite <- app_assoc. simpl.
    replace (S (Z.to_nat off + n)) with (Z.to_nat off + S n)%nat by lia.
    reflexivity.
Qed.

(** The same copy, on a buffer that holds a header followed by zeros. *)
Lemma memcpy_after_header (hdr : list Z) (pad n : nat) (src : cstring)
      (sp : list (Z * Z)) :
  (n <= length src)%nat -> (n <= pad)%nat ->
  memcpy (Z.of_nat (length hdr)) src n (AdvBuf (hdr ++ replicate pad 0) sp) =
  AdvBuf (hdr ++ take n src ++ replicate (pad - n) 0) sp.
Proof.
  intros Hsrc Hpad.
  rewrite memcpy_in_array; simpl;
    [|lia|lia|rewrite length_app, length_replicate; lia].
  rewrite Nat2Z.id, take_app_length, drop_app_add, drop_replicate.
  reflexivity.
Qed.

(** ** Closed forms of the encoders *)

(** The cut applied to the length of the name, as the sources write it. *)
Lemma cap_min (cap : nat) (len : nat) :
  (if Z.of_nat cap <? Z.of_nat len then Z.of_nat cap else Z.of_nat len)
  = Z.of_nat (Nat.min len cap).
Proof. destruct (Z.ltb_spec (Z.of_nat cap) (Z.of_nat len)); lia. Qed.

(** bluetoothFake.c: the name is cut at 22 bytes, nothing is stored
    outside the array, and [index] counts the bytes built. *)
Lemma bluetoothfake_adv_data_eq (name : cstring) :
  let k := Nat.min (strlen name) 22 in
  BluetoothFake.adv_data name =
  (AdvBuf ([2; 0x01; 0x06; 3; 0x03; 0x0D; 0x18; Z.of_nat k + 1; 0x09]
             ++ take k name ++ replicate (22 - k) 0) [],
   9 + Z.of_nat k).
Proof.
  intros k.
  pose proof (strlen_le_length name) as Hlen.
  assert (Hcap : (if 22 <? Z.of_nat (strlen name)
                  then 22 else Z.of_nat (strlen name)) = Z.of_nat k)
    by exact (cap_min 22 (strlen name)).
  assert (Hmod : (Z.of_nat k + 1) mod 256 = Z.of_nat k + 1)
    by (apply Z.mod_small; lia).
  change (BluetoothFake.adv_data name) with
    (let name_len := if 22 <? Z.of_nat (strlen name)
                     then 22 else Z.of_nat (strlen name) in
     (memcpy 9 name (Z.to_nat name_len)
        (AdvBuf ([2; 1; 6; 3; 3; 13; 24; (name_len + 1) mod 256; 9]
                   ++ replicate 22 0) []),
      9 + name_len)).
  cbv zeta. rewrite !Hcap, Hmod, Nat2Z.id.
  f_equal.
  apply (memcpy_after_header [2; 1; 6; 3; 3; 13; 24; Z.of_nat k + 1; 9] 22 k name []);
    lia.
Qed.

(** linux.c, the unnamed duplicate and ESP32.c: [index] after the name
    record, for every name. *)
Lemma linux_index (name : cstring) :
  snd (Linux.adv_data name) = 5 + Z.of_nat (Nat.min (strlen name) 29).
Proof.
  unfold Linux.adv_data. cbv zeta. cbn [snd].
  change 29 with (Z.of_nat 29). rewrite cap_min. lia.
Qed.

(** The array is overrun exactly by the names of 27 bytes and more. *)
Lemma linux_overrun_iff (name : cstring) :
  31 < snd (Linux.adv_data name) <-> (27 <= strlen name)%nat.
Proof. rewrite linux_index. lia. Qed.

(** Up to 26 bytes the name is kept whole and the array is not left. *)
Lemma linux_adv_data_eq (name : cstring) :
  (strlen name <= 26)%nat ->
  let k := strlen name in
  Linux.adv_data name =
  (AdvBuf ([2; 0x01; 0x06; Z.of_nat k + 1; 0x09]
             ++ take k name ++ replicate (26 - k) 0) [],
   5 + Z.of_nat k).
Proof.
  intros Hfit k.
  pose proof (strlen_le_length name) as Hlen.
  assert (Hcap : (if 29 <? Z.of_nat (strlen name)
                  then 29 else Z.of_nat (strlen name)) = Z.of_nat k).
  { transitivity (Z.of_nat (Nat.min (strlen name) 29));
      [exact (cap_min 29 (strlen name))|subst k; lia]. }
  assert (Hmod : (Z.of_nat k + 1) mod 256 = Z.of_nat k + 1)
    by (apply Z.mod_small; lia).
  change (Linux.adv_data name) with
    (let name_len := if 29 <? Z.of_nat (strlen name)
                     then 29 else Z.of_nat (strlen name) in
     (memcpy 5 name (Z.to_nat name_len)
        (AdvBuf ([2; 1; 6; (name_len + 1) mod 256; 9] ++ replicate 26 0) []),
      5 + name_len)).
  cbv zeta. rewrite !Hcap, Hmod, Nat2Z.id.
  f_equal.
  apply (memcpy_after_header [2; 1; 6; Z.of_nat k + 1; 9] 26 k name []); lia.
Qed.

Lemma esp32_adv_data_linux (name : cstring) :
  ESP32.adv_data name = Linux.adv_data name.
Proof. reflexivity. Qed.

(** The payload of bluetoothFake.c fits the array for every name. *)
Lemma bluetoothfake_payload_bound (name : cstring) :
  snd (BluetoothFake.adv_data name) <= 31 /\
  spill (fst (BluetoothFake.adv_data name)) = [] /\
  length (cells (fst (BluetoothFake.adv_data name))) = 31%nat.
Proof.
  rewrite bluetoothfake_adv_data_eq. cbn [fst snd cells spill].
  pose proof (strlen_le_length name).
  repeat split; [lia|].
  rewrite !length_app, length_take, length_replicate. simpl. lia.
Qed.

(** The bytes bluetoothFake.c hands to the controller. *)
Lemma bluetoothfake_first_bytes (name : cstring) :
  let k := Nat.min (strlen name) 22 in
  first_bytes (fst (BluetoothFake.adv_data name)) (snd (BluetoothFake.adv_data name))
  = [2; 0x01; 0x06; 3; 0x03; 0x0D; 0x18; Z.of_nat k + 1; 0x09] ++ take k name.
Proof.
  intros k. rewrite bluetoothfake_adv_data_eq. fold k.
  cbn [fst snd]. unfold first_bytes. cbn [cells].
  pose proof (strlen_le_length name).
  rewrite (app_assoc _ (take k name)).
  apply take_app_length'.
  rewrite length_app, length_take. simpl. lia.
Qed.

(** ** Payload encoder *)

(** C1. The payload is not bounded by 31 in the variants without a
    service UUID: for a name of 27 bytes linux.c (and the duplicate)
    reach [index = 32] and store the last name byte at offset 31, one
    past the array; ESP32.c builds the same and passes the length 32 to
    the controller. *)
Theorem payload_exceeds_31_without_uuid :
  strlen name27 = 27%nat /\
  snd (Linux.adv_data name27) = 32 /\
  spill (fst (Linux.adv_data name27)) = [(31, 48)] /\
  snd (ESP32.adv_data name27) = 32 /\
  (forall h, exists bytes,
      events (ESP32.start_advertising name27) h =
      [EspCall (esp_ble_gap_config_adv_data_raw bytes 32)]).
Proof.
  repeat split; try (vm_compute; reflexivity).
  intros h. eexists. vm_compute. reflexivity.
Qed.

(** C5, as stated, fails for bluetoothFake.c: of a name of 23 bytes the
    encoder keeps 22, while 23 satisfies [3 + 3 + 2 + k <= 31]. *)
Lemma truncation_rule_counterexample :
  ~ spec_truncation true (strlen name23)
      (kept_len (BluetoothFake.adv_data name23) 9).
Proof.
  intros (_ & _ & Hmax).
  specialize (Hmax 23%nat).
  assert (Hle : (23 <= kept_len (BluetoothFake.adv_data name23) 9)%nat).
  { apply Hmax; [vm_compute; lia | unfold spec_fits; lia]. }
  vm_compute in Hle. lia.
Qed.

(** C5, amended.  With the service-UUID record, which takes 4 bytes, the
    encoder keeps the largest [k] not above the length of the name with
    [3 + 4 + 2 + k <= 31]; it stores nothing outside the array, the bytes
    built are the two fixed records, the name header and the first [k]
    bytes of the name, and [set_advertising_data] hands exactly these to
    the controller whatever the controller and the history of the run. *)
Theorem truncation_rule_with_uuid (name : cstring) :
  let enc := BluetoothFake.adv_data name in
  let k := kept_len enc 9 in
  ((k <= strlen name)%nat /\ (3 + 4 + 2 + k <= 31)%nat /\
   forall k', (k' <= strlen name)%nat -> (3 + 4 + 2 + k' <= 31)%nat -> (k' <= k)%nat) /\
  spill (fst enc) = [] /\
  snd enc = 9 + Z.of_nat k /\
  first_bytes (fst enc) (snd enc) =
    [2; 0x01; 0x06; 3; 0x03; 0x0D; 0x18; Z.of_nat k + 1; 0x09] ++ take k name /\
  forall (B : BlueZ) (sock : Z) (h : list event),
    exists rest,
      events (BluetoothFake.set_advertising_data sock name) h =
      HciSendCmd sock
        (LE_SET_ADVERTISING_DATA (9 + Z.of_nat k)
           ([2; 0x01; 0x06; 3; 0x03; 0x0D; 0x18; Z.of_nat k + 1; 0x09] ++ take k name))
      :: rest.
Proof.
  intros enc k.
  assert (Hk : k = Nat.min (strlen name) 22).
  { subst k enc. unfold kept_len. rewrite bluetoothfake_adv_data_eq.
    cbn [snd]. lia. }
  pose proof (bluetoothfake_payload_bound name) as (_ & Hsp & _).
  pose proof (bluetoothfake_first_bytes name) as Hfb. cbv zeta in Hfb.
  rewrite <- Hk in Hfb.
  assert (Hidx : snd enc = 9 + Z.of_nat k).
  { subst enc. rewrite bluetoothfake_adv_data_eq. cbn [snd]. lia. }
  split; [|split; [exact Hsp|split; [exact Hidx|split; [exact Hfb|]]]].
  - rewrite Hk. repeat split; lia.
  - intros B sock h.
    subst enc. clearbody k.
    unfold BluetoothFake.set_advertising_data, events.
    rewrite (surjective_pairing (BluetoothFake.adv_data name)).
    unfold bind, hci_send_cmd. rewrite Hfb, Hidx.
    match goal with
    | |- context [if ?c then _ else _] => destruct c
    end; simpl; eexists; reflexivity.
Qed.

(** C8. In the variants without a service UUID the empty name gives
    exactly the five bytes 2, 0x01, 0x06, 1, 0x09: [index] is 5, the
    rest of the array keeps its zeros, nothing is stored outside it,
    and ESP32.c hands these five bytes to the controller. *)
Theorem empty_name_payload :
  Linux.adv_data (bytes_of_string "") =
    (AdvBuf ([2; 0x01; 0x06; 1; 0x09] ++ replicate 26 0) [], 5) /\
  first_bytes (fst (Linux.adv_data (bytes_of_string "")))
              (snd (Linux.adv_data (bytes_of_string ""))) = [2; 0x01; 0x06; 1; 0x09] /\
  ESP32.adv_data (bytes_of_string "") =
    (AdvBuf ([2; 0x01; 0x06; 1; 0x09] ++ replicate 26 0) [], 5) /\
  forall h,
    events (ESP32.start_advertising (bytes_of_string "")) h =
    [EspCall (esp_ble_gap_config_adv_data_raw [2; 0x01; 0x06; 1; 0x09] 5)].
Proof. repeat split. Qed.

(** ** Running computations *)

Lemma events_bind {A B} (m : io A) (k : A -> io B) (h : list event) :
  events (bind m k) h = events m h ++ events (k (result m h)) (h ++ events m h).
Proof.
  unfold events, result, bind.
  destruct (m h) as [a e1]. cbn [fst snd].
  destruct (k a (h ++ e1)) as [b e2]. reflexivity.
Qed.

Lemma result_bind {A B} (m : io A) (k : A -> io B) (h : list event) :
  result (bind m k) h = result (k (result m h)) (h ++ events m h).
Proof.
  unfold events, result, bind.
  destruct (m h) as [a e1]. cbn [fst snd].
  destruct (k a (h ++ e1)) as [b e2]. reflexivity.
Qed.

(** The events of the loop are those of its passes, in order. *)
Lemma while_true_events (body : Z -> io (option Z)) (fuel : nat) :
  forall idx h,
    events (while_true body fuel idx) h = concat (cycles body fuel idx h).
Proof.
  induction fuel as [|fuel IH]; intros idx h; [reflexivity|].
  cbn [while_true cycles]. rewrite events_bind.
  unfold events at 1, result at 1.
  destruct (body idx h) as [[idx'|] e] eqn:Hb; cbn [fst snd concat].
  - unfold events at 2. rewrite Hb. cbn [snd]. rewrite IH. reflexivity.
  - reflexivity.
Qed.

(** What holds of every pass of the body holds of every pass of the loop. *)
Lemma cycles_Forall (P : list event -> Prop) (body : Z -> io (option Z)) :
  (forall idx h, P (events (body idx) h)) ->
  forall fuel idx h, Forall P (cycles body fuel idx h).
Proof.
  intros HP fuel. induction fuel as [|fuel IH]; intros idx h; cbn [cycles].
  - constructor.
  - specialize (HP idx h). unfold events in HP.
    destruct (body idx h) as [[idx'|] e]; cbn [snd] in HP;
      constructor; auto.
Qed.

(** Once the loop has left through [break], more fuel changes nothing. *)
Lemma while_true_broke_mono (body : Z -> io (option Z)) (fuel : nat) :
  forall idx h,
    result (while_true body fuel idx) h = Broke ->
    forall extra, while_true body (fuel + extra) idx h = while_true body fuel idx h.
Proof.
  induction fuel as [|fuel IH]; intros idx h Hb extra.
  - discriminate Hb.
  - cbn [while_true Nat.add] in *. rewrite result_bind in Hb.
    unfold bind. unfold result, events in Hb.
    destruct (body idx h) as [[idx'|] e]; cbn [fst snd] in Hb; [|reflexivity].
    rewrite (IH idx' (h ++ e) Hb extra). reflexivity.
Qed.

(** ** Roster cursor *)

Lemma next_idx_range (idx : Z) : 0 <= idx < 3 -> 0 <= next_idx idx < 3.
Proof.
  intros H. assert (idx = 0 \/ idx = 1 \/ idx = 2) as [->|[->| ->]] by lia;
    vm_compute; split; congruence.
Qed.

Lemma cursor_after_range (n : nat) (idx : Z) :
  0 <= idx < 3 -> 0 <= cursor_after n idx < 3.
Proof.
  intros H. induction n as [|n IH]; [exact H|].
  unfold cursor_after in *. cbn [Nat.iter]. apply next_idx_range, IH.
Qed.

Lemma cursor_after_S (n : nat) (idx : Z) :
  cursor_after (S n) idx = cursor_after n (next_idx idx).
Proof. unfold cursor_after. apply Nat.iter_succ_r. Qed.

(** The loop of ESP32.c never leaves: after [n] passes it runs with the
    cursor advanced [n] times. *)
Lemma esp32_loop_running (n : nat) :
  forall idx h,
    result (ESP32.advertising_loop_task n idx) h = Running (cursor_after n idx).
Proof.
  unfold ESP32.advertising_loop_task.
  induction n as [|n IH]; intros idx h; [reflexivity|].
  cbn [while_true]. rewrite result_bind, cursor_after_S.
  rewrite result_bind. cbn [result ret fst]. unfold result at 2.
  cbn -[result while_true cursor_after next_idx]. apply IH.
Qed.

(** C7. With three identities the cursor is back at its start after
    three advances, it stays in [0, 3), six successive switches visit
    the same three cursors twice, the loop of ESP32.c runs with exactly
    this cursor, and from cursor 0 the identities visited in six
    switches are the roster twice: as cursors, as the names ESP32.c
    logs, and as the names linux.c and bluetoothFake.c print when the
    controller accepts every command. *)
Theorem roster_circularity (idx : Z) (Hidx : 0 <= idx < 3) :
  cursor_after 3 idx = idx /\
  (forall n, 0 <= cursor_after n idx < 3) /\
  visited 6 idx = visited 3 idx ++ visited 3 idx /\
  (forall n h,
      result (ESP32.advertising_loop_task n idx) h = Running (cursor_after n idx)) /\
  map (at_index "" Linux.names) (visited 6 0) = Linux.names ++ Linux.names /\
  map (at_index "" BluetoothFake.names) (visited 6 0) =
    BluetoothFake.names ++ BluetoothFake.names /\
  logged_names (events (ESP32.advertising_loop_task 6 0) []) =
    ESP32.device_names ++ ESP32.device_names /\
  printed_names (events (@Linux.main_loop always_ok 6 3 0) []) =
    Linux.names ++ Linux.names /\
  printed_names (events (@BluetoothFake.main_loop always_ok 6 3 0) []) =
    BluetoothFake.names ++ BluetoothFake.names.
Proof.
  assert (idx = 0 \/ idx = 1 \/ idx = 2) as Hcases by lia.
  split; [|split; [|split; [|split; [|split; [|split; [|split; [|split]]]]]]].
  - destruct Hcases as [->|[->| ->]]; reflexivity.
  - intros n. apply cursor_after_range, Hidx.
  - destruct Hcases as [->|[->| ->]]; reflexivity.
  - intros n h. apply esp32_loop_running.
  - reflexivity.
  - reflexivity.
  - vm_compute. reflexivity.
  - vm_compute. reflexivity.
  - vm_compute. reflexivity.
Qed.

Lemma roster_circularity_witness :
  cursor_after 3 2 = 2 /\ visited 6 2 = [2; 0; 1; 2; 0; 1].
Proof.
  pose proof (roster_circularity 2 ltac:(lia)) as (H3 & _ & H6 & _).
  split; [exact H3|rewrite H6; reflexivity].
Defined.

(** ** One pass of the loop, case by case *)

Ltac io_unfold :=
  unfold events, result,
    Linux.loop_body, BluetoothFake.loop_body, ESP32.loop_body,
    Linux.set_advertising_data, BluetoothFake.set_advertising_data,
    ESP32.start_advertising, ESP32.esp,
    Hci.stop_advertising, Hci.set_random_mac, Hci.start_advertising,
    hci_send_cmd, printf, perror, sleep, close, emit, bind, ret.

Ltac io_cases :=
  repeat match goal with
         | |- context [Linux.adv_data ?n] =>
             generalize (Linux.adv_data n); intros [? ?]
         | |- context [BluetoothFake.adv_data ?n] =>
             generalize (BluetoothFake.adv_data n); intros [? ?]
         | |- context [ESP32.adv_data ?n] =>
             generalize (ESP32.adv_data n); intros [? ?]
         end;
  repeat first
    [ progress cbn [fst snd app]
    | progress change (0 <? 0) with false
    | progress change (-1 <? 0) with true
    | match goal with
      | |- context [if hci_send_cmd_ret ?h ?s ?c <? 0 then _ else _] =>
          let E := fresh "E" in destruct (hci_send_cmd_ret h s c <? 0) eqn:E
      end ];
  cbn [radio_ops map concat ops_of_event app Z.eqb take].

Lemma radio_ops_app (a b : list event) :
  radio_ops (a ++ b) = radio_ops a ++ radio_ops b.
Proof. unfold radio_ops. rewrite map_app, concat_app. reflexivity. Qed.

Lemma radio_ops_concat_not_in (op : radio_op) (cs : list (list event)) :
  Forall (fun c => op ∉ radio_ops c) cs -> op ∉ radio_ops (concat cs).
Proof.
  induction 1 as [|c cs Hc _ IH]; cbn [concat].
  - unfold radio_ops. cbn. apply not_elem_of_nil.
  - rewrite radio_ops_app, elem_of_app. tauto.
Qed.





(** ** Radio sequencer *)


(** The first events of a pass: log line, stop, the report of a failed
    stop if any, set-address. *)
Lemma linux_pass_stop_address `{BlueZ} (sock idx : Z) (h : list event) :
  let line := Printf ("Broadcasting device %s with MAC %s" +:+ newline)
                [at_index "" Linux.names idx; at_index "" Linux.macs_str idx] in
  exists rest,
    events (Linux.loop_body sock idx) h =
    line :: HciSendCmd sock (LE_SET_ADVERTISE_ENABLE 0)
      :: (if hci_send_cmd_ret (h ++ [line]) sock (LE_SET_ADVERTISE_ENABLE 0) <? 0
          then [Perror "Disable advertising failed"] else [])
      ++ HciSendCmd sock (LE_SET_RANDOM_ADDRESS (at_index [] Linux.macs idx))
      :: rest.
Proof. intros line. subst line. io_unfold. io_cases. all: eexists; reflexivity. Qed.

Lemma bluetoothfake_pass_stop_address `{BlueZ} (sock idx : Z) (h : list event) :
  let line := Printf ("Transmitindo como: %s | MAC: %s" +:+ newline)
                [at_index "" BluetoothFake.names idx;
                 at_index "" BluetoothFake.macs_str idx] in
  exists rest,
    events (BluetoothFake.loop_body sock idx) h =
    line :: HciSendCmd sock (LE_SET_ADVERTISE_ENABLE 0)
      :: (if hci_send_cmd_ret (h ++ [line]) sock (LE_SET_ADVERTISE_ENABLE 0) <? 0
          then [Perror "Disable advertising failed"] else [])
      ++ HciSendCmd sock (LE_SET_RANDOM_ADDRESS (at_index [] BluetoothFake.macs idx))
      :: rest.
Proof. intros line. subst line. io_unfold. io_cases. all: eexists; reflexivity. Qed.

Lemma stop_then_address_intro (sock r : Z) (line : event) (mac : list Z)
      (rest c : list event) :
  c = line :: HciSendCmd sock (LE_SET_ADVERTISE_ENABLE 0)
        :: (if r <? 0 then [Perror "Disable advertising failed"] else [])
        ++ HciSendCmd sock (LE_SET_RANDOM_ADDRESS mac) :: rest ->
  stop_then_address sock c.
Proof.
  intros ->. exists line, (if r <? 0 then [Perror "Disable advertising failed"] else []),
    mac, rest.
  split; [reflexivity|]. destruct (r <? 0); [right|left]; reflexivity.
Qed.

Example bluetoothfake_pass_after_failed_stop :
  exists data,
    events (@BluetoothFake.loop_body stop_fails 3 0) [] =
    [ Printf ("Transmitindo como: %s | MAC: %s" +:+ newline)
             ["HRM_Brac_01"; "AA:BB:CC:DD:EE:01"];
      HciSendCmd 3 (LE_SET_ADVERTISE_ENABLE 0);
      Perror "Disable advertising failed";
      HciSendCmd 3 (LE_SET_RANDOM_ADDRESS [0x01; 0xEE; 0xDD; 0xCC; 0xBB; 0xAA]);
      HciSendCmd 3 (LE_SET_ADVERTISING_DATA 20 data);
      HciSendCmd 3 (LE_SET_ADVERTISING_PARAMETERS (AdvParamsCp 0xA0 0xA0 0 1 7 0));
      HciSendCmd 3 (LE_SET_ADVERTISE_ENABLE 1);
      Sleep 2 ] /\
    data = [2; 1; 6; 3; 3; 0x0D; 0x18; 12; 9] ++ bytes_of_string "HRM_Brac_01".
Proof. eexists. split; vm_compute; reflexivity. Qed.

Ltac not_in_list :=
  let Hin := fresh "Hin" in
  intros Hin;
  repeat (apply elem_of_cons in Hin as [Hin|Hin]; [discriminate Hin|]);
  inversion Hin.

Lemma linux_pass_no_payload `{BlueZ} (sock idx : Z) (h : list event) :
  SetPayload ∉ radio_ops (events (Linux.loop_body sock idx) h).
Proof. io_unfold. io_cases. all: not_in_list. Qed.

(** The sibling bluetoothFake.c sends the payload in every pass. *)
Lemma bluetoothfake_pass_sends_payload `{BlueZ} (sock idx : Z) (h : list event) :
  exists plen param,
    HciSendCmd sock (LE_SET_ADVERTISING_DATA plen param)
      ∈ events (BluetoothFake.loop_body sock idx) h.
Proof.
  io_unfold. io_cases.
  all: do 2 eexists.
  all: repeat first [apply list_elem_of_here | apply list_elem_of_further].
Qed.

(** C4. linux.c (and the duplicate) never hands the payload to the
    controller: no pass of the loop and no run of [main] contains a
    set-payload operation, although the encoder has built the bytes;
    for the first identity, "DISP_01", [set_advertising_data] returns 0
    without any event while the buffer holds the 12 bytes of the
    payload. *)
Theorem linux_payload_never_sent `{BlueZ} (fuel : nat) (sock idx : Z) (h : list event) :
  (SetPayload ∉ radio_ops (events (Linux.main_loop fuel sock idx) h)) /\
  (SetPayload ∉ radio_ops (events (Linux.main fuel) h)) /\
  Linux.set_advertising_data sock (bytes_of_string "DISP_01") h = (0, []) /\
  first_bytes (fst (Linux.adv_data (bytes_of_string "DISP_01")))
              (snd (Linux.adv_data (bytes_of_string "DISP_01")))
  = [2; 0x01; 0x06; 8; 0x09; 68; 73; 83; 80; 95; 48; 49].
Proof.
  assert (Hloop : forall s i h',
             SetPayload ∉ radio_ops (events (Linux.main_loop fuel s i) h')).
  { intros s i h'. unfold Linux.main_loop. rewrite while_true_events.
    apply radio_ops_concat_not_in, cycles_Forall.
    intros. apply linux_pass_no_payload. }
  split; [apply Hloop|]. split; [|split; reflexivity].
  unfold Linux.main.
  destruct (hci_open_dev hci_get_route <? 0).
  - io_unfold. cbn. not_in_list.
  - rewrite events_bind, radio_ops_app, elem_of_app.
    intros [Hin|Hin]; [exact (Hloop _ _ _ Hin)|].
    revert Hin. destruct (result _ _).
    + io_unfold. io_cases. all: not_in_list.
    + io_unfold. cbn. not_in_list.
Qed.

(** ** Leaving the loop *)

(** A pass of linux.c that ends in [break] ends with a failed
    set-parameters or enable command and its report. *)
Lemma linux_pass_break `{BlueZ} (sock idx : Z) (h : list event) :
  result (Linux.loop_body sock idx) h = None ->
  exists pre c msg,
    events (Linux.loop_body sock idx) h = pre ++ [HciSendCmd sock c; Perror msg] /\
    hci_send_cmd_ret (h ++ pre) sock c < 0 /\
    params_or_start c.
Proof.
  io_unfold. io_cases. all: intros Hres; try discriminate Hres.
  all: repeat match goal with
         | E : (_ <? 0) = true |- _ => apply Z.ltb_lt in E
         | E : (_ <? 0) = false |- _ => clear E
         end.
  all: rewrite <- ?app_assoc in *; cbn [app] in *.
  all: match goal with
       | |- exists _ _ _, ?ev = _ /\ _ =>
           exists (take (length ev - 2) ev)
       end; cbn [length Nat.sub take]; do 2 eexists.
  all: (split; [reflexivity|split; [eassumption|]]).
  all: first [left; eexists; reflexivity | right; reflexivity].
Qed.

Lemma linux_loop_break `{BlueZ} (sock : Z) (fuel : nat) :
  forall idx h,
    result (Linux.main_loop fuel sock idx) h = Broke ->
    exists pre c msg,
      events (Linux.main_loop fuel sock idx) h
        = pre ++ [HciSendCmd sock c; Perror msg] /\
      hci_send_cmd_ret (h ++ pre) sock c < 0 /\
      params_or_start c.
Proof.
  unfold Linux.main_loop.
  induction fuel as [|fuel IH]; intros idx h Hb; [discriminate Hb|].
  cbn [while_true] in *. rewrite result_bind in Hb. rewrite events_bind.
  destruct (result (Linux.loop_body sock idx) h) as [idx'|] eqn:Hr.
  - destruct (IH _ _ Hb) as (pre & c & msg & Hev & Hlt & Hc).
    exists (events (Linux.loop_body sock idx) h ++ pre), c, msg.
    rewrite Hev, !app_assoc. auto.
  - destruct (linux_pass_break sock idx h Hr) as (pre & c & msg & Hev & Hlt & Hc).
    exists pre, c, msg. cbn [events ret snd]. rewrite app_nil_r. auto.
Qed.

(** C10. In linux.c (and the duplicate) [set_advertising_data] returns
    0 for every socket, name and history and calls nothing; so a pass
    that leaves the loop, and hence a loop that has left, ends with a
    set-parameters or enable command whose reply was negative, followed
    by its report. *)
Theorem linux_payload_step_cannot_fail `{BlueZ} (sock : Z) :
  (forall name h, Linux.set_advertising_data sock name h = (0, [])) /\
  (forall idx h,
      result (Linux.loop_body sock idx) h = None ->
      exists pre c msg,
        events (Linux.loop_body sock idx) h
          = pre ++ [HciSendCmd sock c; Perror msg] /\
        hci_send_cmd_ret (h ++ pre) sock c < 0 /\
        params_or_start c) /\
  (forall fuel idx h,
      result (Linux.main_loop fuel sock idx) h = Broke ->
      exists pre c msg,
        events (Linux.main_loop fuel sock idx) h
          = pre ++ [HciSendCmd sock c; Perror msg] /\
        hci_send_cmd_ret (h ++ pre) sock c < 0 /\
        params_or_start c).
Proof.
  split; [|split].
  - intros name h. unfold Linux.set_advertising_data.
    destruct (Linux.adv_data name). reflexivity.
  - intros idx h. apply linux_pass_break.
  - intros fuel idx h. apply linux_loop_break.
Qed.

Lemma linux_payload_step_cannot_fail_witness :
  result (@Linux.main_loop start_fails 1 3 0) [] = Broke /\
  exists pre c msg,
    events (@Linux.main_loop start_fails 1 3 0) []
      = pre ++ [HciSendCmd 3 c; Perror msg] /\
    @hci_send_cmd_ret start_fails ([] ++ pre) 3 c < 0 /\
    params_or_start c.
Proof.
  split; [reflexivity|].
  apply (proj2 (proj2 (@linux_payload_step_cannot_fail start_fails 3))).
  reflexivity.
Defined.

(** A loop whose passes never leave runs on with the cursor advanced
    once per pass. *)
Lemma while_true_never_breaks (body : Z -> io (option Z)) :
  (forall idx h, result (body idx) h = Some (next_idx idx)) ->
  forall fuel idx h,
    result (while_true body fuel idx) h = Running (cursor_after fuel idx) /\
    length (cycles body fuel idx h) = fuel.
Proof.
  intros Hbody fuel. induction fuel as [|fuel IH]; intros idx h.
  - split; reflexivity.
  - cbn [while_true cycles]. rewrite result_bind, Hbody, cursor_after_S.
    specialize (Hbody idx h). unfold result, events in *.
    destruct (body idx h) as [r e]. cbn [fst snd] in *. subst r.
    destruct (IH (next_idx idx) (h ++ e)) as [IH1 IH2].
    split; [exact IH1|]. cbn [length]. rewrite IH2. reflexivity.
Qed.

Ltac fatal_ok Hok :=
  try (exfalso;
       match goal with
       | E : (hci_send_cmd_ret ?h ?s ?c <? 0) = true |- _ =>
           apply Z.ltb_lt in E;
           assert (0 <= hci_send_cmd_ret h s c)
             by (apply Hok; [intros ?; discriminate|discriminate]);
           lia
       end).

Section FatalStepsSucceed.
Context `{BlueZ}.
Hypothesis Hok : forall h s c,
    (forall mac, c <> LE_SET_RANDOM_ADDRESS mac) ->
    c <> LE_SET_ADVERTISE_ENABLE 0 ->
    0 <= hci_send_cmd_ret h s c.

Lemma bluetoothfake_pass_completes (sock idx : Z) (h : list event) :
  result (BluetoothFake.loop_body sock idx) h = Some (next_idx idx) /\
  radio_ops (events (BluetoothFake.loop_body sock idx) h) = switch_order.
Proof.
  io_unfold. io_cases. all: fatal_ok Hok. all: split; reflexivity.
Qed.

Lemma linux_pass_completes (sock idx : Z) (h : list event) :
  result (Linux.loop_body sock idx) h = Some (next_idx idx) /\
  radio_ops (events (Linux.loop_body sock idx) h)
    = [Stop; SetAddress; SetParameters; Start].
Proof.
  io_unfold. io_cases. all: fatal_ok Hok. all: split; reflexivity.
Qed.

End FatalStepsSucceed.

(** C3, as stated, fails: under a controller that rejects every
    set-address command the loop of bluetoothFake.c does not leave in
    its first pass. *)
Lemma address_failure_counterexample :
  ~ (forall fuel,
        result (@BluetoothFake.main_loop address_fails (S fuel) 3 0) [] = Broke).
Proof. intros Habort. specialize (Habort 1%nat). discriminate Habort. Qed.

(** C3, amended.  [set_random_mac] returns nothing: it sends the
    command and reports a negative reply with [perror].  So whatever the
    replies to set-address (and to stop) are, as long as the set-payload,
    set-parameters and enable commands are accepted every pass of
    bluetoothFake.c performs all five operations, every pass of linux.c
    performs stop, set-address, set-parameters and start, and the loop
    is still running after any number of passes. *)
Theorem address_failure_is_not_fatal `{BlueZ}
        (Hok : forall h s c,
            (forall mac, c <> LE_SET_RANDOM_ADDRESS mac) ->
            c <> LE_SET_ADVERTISE_ENABLE 0 ->
            0 <= hci_send_cmd_ret h s c)
        (fuel : nat) (sock idx : Z) (h : list event) :
  (forall mac h',
      Hci.set_random_mac sock mac h' =
      (tt, HciSendCmd sock (LE_SET_RANDOM_ADDRESS mac)
             :: (if hci_send_cmd_ret h' sock (LE_SET_RANDOM_ADDRESS mac) <? 0
                 then [Perror "HCI_LE_SET_RANDOM_ADDRESS failed"] else []))) /\
  (result (BluetoothFake.main_loop fuel sock idx) h = Running (cursor_after fuel idx) /\
   length (cycles (BluetoothFake.loop_body sock) fuel idx h) = fuel /\
   Forall (fun c => radio_ops c = switch_order)
     (cycles (BluetoothFake.loop_body sock) fuel idx h)) /\
  (result (Linux.main_loop fuel sock idx) h = Running (cursor_after fuel idx) /\
   length (cycles (Linux.loop_body sock) fuel idx h) = fuel /\
   Forall (fun c => radio_ops c = [Stop; SetAddress; SetParameters; Start])
     (cycles (Linux.loop_body sock) fuel idx h)).
Proof.
  split; [|split].
  - intros mac h'. io_unfold.
    destruct (hci_send_cmd_ret h' sock (LE_SET_RANDOM_ADDRESS mac) <? 0); reflexivity.
  - destruct (while_true_never_breaks (BluetoothFake.loop_body sock)
                (fun i h' => proj1 (bluetoothfake_pass_completes Hok sock i h'))
                fuel idx h) as [Hrun Hlen].
    repeat split; [exact Hrun|exact Hlen|].
    apply (cycles_Forall (fun c => radio_ops c = switch_order)).
    intros i h'. apply (bluetoothfake_pass_completes Hok).
  - destruct (while_true_never_breaks (Linux.loop_body sock)
                (fun i h' => proj1 (linux_pass_completes Hok sock i h'))
                fuel idx h) as [Hrun Hlen].
    repeat split; [exact Hrun|exact Hlen|].
    apply (cycles_Forall (fun c => radio_ops c = [Stop; SetAddress; SetParameters; Start])).
    intros i h'. apply (linux_pass_completes Hok).
Qed.

Lemma address_failure_is_not_fatal_witness :
  (forall h mac, @hci_send_cmd_ret address_fails h 3 (LE_SET_RANDOM_ADDRESS mac) < 0) /\
  result (@BluetoothFake.main_loop address_fails 4 3 0) [] = Running 1 /\
  length (cycles (@BluetoothFake.loop_body address_fails 3) 4 0 []) = 4%nat.
Proof.
  assert (Hok : forall h s c,
             (forall mac, c <> LE_SET_RANDOM_ADDRESS mac) ->
             c <> LE_SET_ADVERTISE_ENABLE 0 ->
             0 <= @hci_send_cmd_ret address_fails h s c).
  { intros h s c Hc _. destruct c; simpl; try lia.
    exfalso. exact (Hc bdaddr eq_refl). }
  split; [intros; simpl; lia|].
  destruct (@address_failure_is_not_fatal address_fails Hok 4 3 0 [])
    as (_ & (Hrun & Hlen & _) & _).
  split; [exact Hrun|exact Hlen].
Defined.

(** C6, as stated, fails: when the enable command is rejected in the
    first pass, [main] of bluetoothFake.c returns the status 0. *)
Lemma abort_exit_status_counterexample :
  ~ (forall status,
        result (@BluetoothFake.main start_fails 1) [] = Some status -> status <> 0).
Proof. intros Hnz. exact (Hnz 0 eq_refl eq_refl). Qed.

Lemma cleanup_events `{BlueZ} (sock : Z) (h : list event) :
  exists log,
    events (Hci.stop_advertising sock ;;; close sock ;;; ret (Some 0)) h
      = HciSendCmd sock (LE_SET_ADVERTISE_ENABLE 0) :: log ++ [Close sock] /\
    (log = [] \/ log = [Perror "Disable advertising failed"]) /\
    result (Hci.stop_advertising sock ;;; close sock ;;; ret (Some 0)) h = Some 0.
Proof.
  io_unfold. io_cases.
  - exists [Perror "Disable advertising failed"]. auto.
  - exists []. auto.
Qed.

Lemma while_true_broke_more (body : Z -> io (option Z)) (fuel extra : nat)
      (idx : Z) (h : list event) :
  result (while_true body fuel idx) h = Broke ->
  result (while_true body (fuel + extra) idx) h = Broke /\
  events (while_true body (fuel + extra) idx) h = events (while_true body fuel idx) h.
Proof.
  intros Hb. unfold result, events in *.
  rewrite (while_true_broke_mono body fuel idx h Hb extra). auto.
Qed.

(** C6, amended.  Once the loop has left through [break] (within [fuel]
    passes), [main] of linux.c and of bluetoothFake.c, run with that
    much fuel or more, sends the stop command, reports its failure if
    it fails, closes the socket and returns the status 0. *)
Theorem abort_runs_cleanup_and_exits_zero `{BlueZ} (fuel extra : nat) (h : list event)
        (Hdev : 0 <= hci_get_route) (Hsock : 0 <= hci_open_dev hci_get_route) :
  let sock := hci_open_dev hci_get_route in
  let hello := Printf ("Iniciando simulação de dispositivos BLE..." +:+ newline) [] in
  let bye := Printf (newline +:+ "Parando anúncio e fechando socket." +:+ newline) [] in
  (result (Linux.main_loop fuel sock 0) h = Broke ->
   result (Linux.main (fuel + extra)) h = Some 0 /\
   exists log,
     events (Linux.main (fuel + extra)) h =
       events (Linux.main_loop fuel sock 0) h
         ++ HciSendCmd sock (LE_SET_ADVERTISE_ENABLE 0) :: log ++ [Close sock] /\
     (log = [] \/ log = [Perror "Disable advertising failed"])) /\
  (result (BluetoothFake.main_loop fuel sock 0) (h ++ [hello]) = Broke ->
   result (BluetoothFake.main (fuel + extra)) h = Some 0 /\
   exists log,
     events (BluetoothFake.main (fuel + extra)) h =
       hello :: events (BluetoothFake.main_loop fuel sock 0) (h ++ [hello])
         ++ bye :: HciSendCmd sock (LE_SET_ADVERTISE_ENABLE 0) :: log ++ [Close sock] /\
     (log = [] \/ log = [Perror "Disable advertising failed"])).
Proof.
  intros sock hello bye.
  assert (Hs : (sock <? 0) = false) by (apply Z.ltb_ge; exact Hsock).
  assert (Hd : (hci_get_route <? 0) = false) by (apply Z.ltb_ge; exact Hdev).
  split; intros Hb.
  - unfold Linux.main. fold sock. rewrite Hs.
    unfold Linux.main_loop in *.
    destruct (while_true_broke_more _ _ extra _ _ Hb) as [Hr He].
    rewrite result_bind, events_bind, !He, !Hr.
    destruct (cleanup_events sock (h ++ events (while_true (Linux.loop_body sock) fuel 0) h))
      as (log & Hev & Hlog & Hres).
    split; [exact Hres|]. exists log. rewrite Hev. auto.
  - unfold BluetoothFake.main. rewrite Hd. fold sock. rewrite Hs.
    unfold BluetoothFake.main_loop in *.
    destruct (while_true_broke_more _ _ extra _ _ Hb) as [Hr He].
    rewrite result_bind, events_bind.
    change (events (printf ("Iniciando simulação de dispositivos BLE..." +:+ newline) []) h)
      with [hello].
    rewrite result_bind, events_bind, !He, !Hr.
    rewrite result_bind, events_bind.
    change (events (printf (newline +:+ "Parando anúncio e fechando socket." +:+ newline) [])
              ((h ++ [hello]) ++ events (while_true (BluetoothFake.loop_body sock) fuel 0)
                                   (h ++ [hello])))
      with [bye].
    destruct (cleanup_events sock
                (((h ++ [hello]) ++ events (while_true (BluetoothFake.loop_body sock) fuel 0)
                                      (h ++ [hello])) ++ [bye]))
      as (log & Hev & Hlog & Hres).
    split; [exact Hres|]. exists log. rewrite Hev. auto.
Qed.

Lemma abort_runs_cleanup_and_exits_zero_witness :
  result (@BluetoothFake.main_loop start_fails 1 3 0)
    ([] ++ [Printf ("Iniciando simulação de dispositivos BLE..." +:+ newline) []]) = Broke /\
  result (@BluetoothFake.main start_fails (1 + 2)) [] = Some 0.
Proof.
  split; [reflexivity|].
  apply (proj2 (@abort_runs_cleanup_and_exits_zero start_fails 1 2 []
                  ltac:(simpl; lia) ltac:(simpl; lia))).
  reflexivity.
Defined.

(** * Further properties of the encoders *)

Lemma strlen_take (n : nat) :
  forall s : cstring, (n <= strlen s)%nat -> strlen (take n s) = n.
Proof.
  induction n as [|n IH]; intros s Hn.
  - destruct s; reflexivity.
  - destruct s as [|c s]; simpl in Hn; [lia|].
    simpl. destruct (c =? 0); [lia|]. rewrite IH; lia.
Qed.

Lemma poke_outside (i v : Z) (b : advbuf) :
  Z.of_nat (length (cells b)) <= i ->
  poke i v b = AdvBuf (cells b) (spill b ++ [(i, v)]).
Proof.
  intros Hi. unfold poke, in_array.
  replace (i <? Z.of_nat (length (cells b))) with false
    by (symmetry; apply Z.ltb_ge; lia).
  rewrite andb_false_r. reflexivity.
Qed.

(** A copy that starts behind the array leaves the cells alone and
    spills every byte. *)
Lemma memcpy_outside (n : nat) :
  forall (src : cstring) (off : Z) (b : advbuf),
    (n <= length src)%nat ->
    Z.of_nat (length (cells b)) <= off ->
    memcpy off src n b = AdvBuf (cells b) (spill b ++ spill_of off (take n src)).
Proof.
  induction n as [|n IH]; intros src off b Hsrc Hoff.
  - destruct b. simpl. rewrite app_nil_r. reflexivity.
  - destruct src as [|c src]; simpl in Hsrc; [lia|].
    simpl memcpy. rewrite poke_outside by lia.
    rewrite IH; simpl; [|lia|lia].
    rewrite <- app_assoc. reflexivity.
Qed.

(** A copy of [n1 + n2] bytes is a copy of [n1] followed by one of [n2]. *)
Lemma memcpy_add (n1 : nat) :
  forall (n2 : nat) (src : cstring) (off : Z) (b : advbuf),
    (n1 <= length src)%nat ->
    memcpy off src (n1 + n2) b =
    memcpy (off + Z.of_nat n1) (drop n1 src) n2 (memcpy off src n1 b).
Proof.
  induction n1 as [|n1 IH]; intros n2 src off b Hsrc.
  - simpl. rewrite Z.add_0_r. reflexivity.
  - destruct src as [|c src]; simpl in Hsrc; [lia|].
    cbn [Nat.add memcpy drop]. rewrite IH by lia.
    replace (off + 1 + Z.of_nat n1) with (off + Z.of_nat (S n1)) by lia.
    reflexivity.
Qed.

(** The copy behind a header, for every length: what fits goes into the
    array, the rest is spilled from the end of the array on. *)
Lemma memcpy_after_header_any (hdr : list Z) (pad n : nat) (src : cstring)
      (sp : list (Z * Z)) :
  (n <= length src)%nat ->
  memcpy (Z.of_nat (length hdr)) src n (AdvBuf (hdr ++ replicate pad 0) sp) =
  AdvBuf (hdr ++ take pad (take n src) ++ replicate (pad - n) 0)
         (sp ++ spill_of (Z.of_nat (length hdr + pad)) (drop pad (take n src))).
Proof.
  intros Hsrc.
  destruct (Nat.le_gt_cases n pad) as [Hle|Hgt].
  - rewrite memcpy_after_header by lia.
    rewrite take_take. replace (Nat.min pad n) with n by lia.
    rewrite (drop_ge (take n src)) by (rewrite length_take; lia).
    simpl. rewrite app_nil_r. reflexivity.
  - replace n with (pad + (n - pad))%nat at 1 by lia.
    rewrite memcpy_add by lia.
    rewrite memcpy_after_header by lia.
    rewrite memcpy_outside; cbn [cells spill].
    + rewrite take_take. replace (Nat.min pad n) with pad by lia.
      replace (pad - pad)%nat with O by lia.
      replace (pad - n)%nat with O by lia.
      rewrite take_drop_commute.
      replace (pad + (n - pad))%nat with n by lia.
      rewrite Nat2Z.inj_add. reflexivity.
    + rewrite length_drop. lia.
    + rewrite !length_app, length_take, length_replicate. simpl. lia.
Qed.

(** linux.c, the duplicate and ESP32.c, for every name. *)
Lemma linux_adv_data_any (name : cstring) :
  let k := Nat.min (strlen name) 29 in
  Linux.adv_data name =
  (AdvBuf ([2; 0x01; 0x06; Z.of_nat k + 1; 0x09]
             ++ take 26 (take k name) ++ replicate (26 - k) 0)
          (spill_of 31 (drop 26 (take k name))),
   5 + Z.of_nat k).
Proof.
  intros k.
  pose proof (strlen_le_length name) as Hlen.
  assert (Hcap : (if 29 <? Z.of_nat (strlen name)
                  then 29 else Z.of_nat (strlen name)) = Z.of_nat k)
    by exact (cap_min 29 (strlen name)).
  assert (Hmod : (Z.of_nat k + 1) mod 256 = Z.of_nat k + 1)
    by (apply Z.mod_small; lia).
  change (Linux.adv_data name) with
    (let name_len := if 29 <? Z.of_nat (strlen name)
                     then 29 else Z.of_nat (strlen name) in
     (memcpy 5 name (Z.to_nat name_len)
        (AdvBuf ([2; 1; 6; (name_len + 1) mod 256; 9] ++ replicate 26 0) []),
      5 + name_len)).
  cbv zeta. rewrite !Hcap, Hmod, Nat2Z.id.
  f_equal.
  apply (memcpy_after_header_any [2; 1; 6; Z.of_nat k + 1; 9] 26 k name []); lia.
Qed.

Lemma spill_of_length (l : list Z) : forall off, length (spill_of off l) = length l.
Proof. induction l as [|c l IH]; intros off; simpl; [|rewrite IH]; reflexivity. Qed.

Lemma spill_of_offsets (l : list Z) :
  forall off,
    Forall (fun p => off <= fst p < off + Z.of_nat (length l)) (spill_of off l).
Proof.
  induction l as [|c l IH]; intros off; simpl; constructor.
  - simpl. lia.
  - eapply Forall_impl; [apply IH|]. intros p Hp. simpl in Hp. lia.
Qed.

(** One record at the head of a payload. *)
Lemma ad_records_step (fuel : nat) (len ty : Z) (value rest : list Z) :
  1 <= len -> Z.to_nat (len - 1) = length value ->
  ad_records (S fuel) (len :: ty :: value ++ rest) =
  option_map (cons (ty, value)) (ad_records fuel rest).
Proof.
  intros Hlen Hval. cbn [ad_records]. rewrite Hval.
  replace (1 <=? len) with true by (symmetry; apply Z.leb_le; lia).
  replace (length value <=? length (value ++ rest))%nat with true
    by (symmetry; apply Nat.leb_le; rewrite length_app; lia).
  rewrite take_app_length, drop_app_length. reflexivity.
Qed.

Lemma ad_records_last (fuel : nat) (len ty : Z) (value : list Z) :
  1 <= len -> Z.to_nat (len - 1) = length value ->
  ad_records (S fuel) (len :: ty :: value) = Some [(ty, value)].
Proof.
  intros Hlen Hval.
  replace (len :: ty :: value) with (len :: ty :: value ++ [])
    by (rewrite app_nil_r; reflexivity).
  rewrite ad_records_step by assumption.
  destruct fuel; reflexivity.
Qed.

Lemma parse_flags_name (k : nat) (value : list Z) :
  length value = k ->
  parse_ad ([2; 0x01; 0x06; Z.of_nat k + 1; 0x09] ++ value) =
  Some [(0x01, [0x06]); (0x09, value)].
Proof.
  intros Hk. unfold parse_ad. cbn [app length].
  etransitivity; [apply (ad_records_step _ 2 1 [6]); [lia|reflexivity]|].
  rewrite ad_records_last by lia. reflexivity.
Qed.

Lemma parse_flags_uuid_name (k : nat) (value : list Z) :
  length value = k ->
  parse_ad ([2; 0x01; 0x06; 3; 0x03; 0x0D; 0x18; Z.of_nat k + 1; 0x09] ++ value) =
  Some [(0x01, [0x06]); (0x03, [0x0D; 0x18]); (0x09, value)].
Proof.
  intros Hk. unfold parse_ad. cbn [app length].
  etransitivity; [apply (ad_records_step _ 2 1 [6]); [lia|reflexivity]|].
  etransitivity;
    [apply f_equal, (ad_records_step _ 3 3 [13; 24]); [lia|reflexivity]|].
  rewrite ad_records_last by lia. reflexivity.
Qed.

(** X1. For every name the encoder of linux.c (and the duplicate) and
    of ESP32.c keeps the array at 31 cells, writes the two record
    headers and the first 26 kept name bytes into it, and stores the
    kept bytes from the 27th on behind it, at offsets 31 to 33: at most
    three bytes, none when the name has at most 26 bytes. *)
Theorem linux_encoder_every_name (name : cstring) :
  let k := Nat.min (strlen name) 29 in
  let enc := Linux.adv_data name in
  ESP32.adv_data name = enc /\
  snd enc = 5 + Z.of_nat k /\
  cells (fst enc) =
    [2; 0x01; 0x06; Z.of_nat k + 1; 0x09]
      ++ take 26 (take k name) ++ replicate (26 - k) 0 /\
  length (cells (fst enc)) = 31%nat /\
  spill (fst enc) = spill_of 31 (drop 26 (take k name)) /\
  length (spill (fst enc)) = (k - 26)%nat /\
  Forall (fun p => 31 <= fst p <= 33) (spill (fst enc)).
Proof.
  intros k enc. subst enc.
  split; [apply esp32_adv_data_linux|].
  rewrite linux_adv_data_any. fold k.
  cbn [fst snd cells spill].
  pose proof (strlen_le_length name) as Hlen.
  assert (Htk : length (take k name) = k) by (rewrite length_take; lia).
  assert (Hdrop : length (drop 26 (take k name)) = (k - 26)%nat)
    by (rewrite length_drop, Htk; reflexivity).
  split; [reflexivity|]. split; [reflexivity|].
  split.
  { rewrite !length_app, length_take, Htk, length_replicate. cbn [length]. lia. }
  split; [reflexivity|].
  split; [rewrite spill_of_length; exact Hdrop|].
  eapply Forall_impl; [apply spill_of_offsets|].
  intros p Hp. simpl in Hp. rewrite Hdrop in Hp. lia.
Qed.

(** X2. A name of at most 26 bytes is encoded whole by linux.c (and the
    duplicate) and ESP32.c: nothing is stored outside the array, [index]
    is 5 plus the length of the name, and the bytes built read back as
    a flags record with value 0x06 followed by a complete-name record
    holding the name, with nothing left over; ESP32.c hands exactly
    these bytes, with this length, to the controller. *)
Theorem linux_encoder_well_formed (name : cstring) (Hfit : (strlen name <= 26)%nat) :
  let enc := Linux.adv_data name in
  spill (fst enc) = [] /\
  snd enc = 5 + Z.of_nat (strlen name) /\
  snd enc <= 31 /\
  Z.of_nat (length (first_bytes (fst enc) (snd enc))) = snd enc /\
  parse_ad (first_bytes (fst enc) (snd enc)) =
    Some [(0x01, [0x06]); (0x09, take (strlen name) name)] /\
  forall h,
    events (ESP32.start_advertising name) h =
    [EspCall (esp_ble_gap_config_adv_data_raw
                (first_bytes (fst enc) (snd enc)) (snd enc))].
Proof.
  intros enc.
  assert (Hesp : forall h,
             events (ESP32.start_advertising name) h =
             [EspCall (esp_ble_gap_config_adv_data_raw
                         (first_bytes (fst enc) (snd enc)) (snd enc))]).
  { intros h. subst enc. unfold ESP32.start_advertising, events.
    rewrite esp32_adv_data_linux.
    destruct (Linux.adv_data name) as [d i]. reflexivity. }
  revert Hesp. subst enc. rewrite (linux_adv_data_eq name Hfit). intros Hesp.
  cbn [fst snd] in Hesp.
  cbn [fst snd cells spill].
  pose proof (strlen_le_length name) as Hlen.
  assert (Htk : length (take (strlen name) name) = strlen name)
    by (rewrite length_take; lia).
  assert (Hfb : first_bytes
                  (AdvBuf ([2; 1; 6; Z.of_nat (strlen name) + 1; 9]
                             ++ take (strlen name) name
                             ++ replicate (26 - strlen name) 0) [])
                  (5 + Z.of_nat (strlen name))
                = [2; 1; 6; Z.of_nat (strlen name) + 1; 9] ++ take (strlen name) name).
  { unfold first_bytes. cbn [cells]. rewrite (app_assoc _ (take _ name)).
    apply take_app_length'. rewrite length_app, Htk. simpl. lia. }
  rewrite Hfb. rewrite Hfb in Hesp.
  split; [reflexivity|]. split; [reflexivity|]. split; [lia|].
  split; [rewrite length_app, Htk; simpl; lia|].
  split; [apply parse_flags_name, Htk|exact Hesp].
Qed.

Lemma linux_encoder_well_formed_witness :
  (strlen (bytes_of_string "DISP_01") <= 26)%nat /\
  parse_ad (first_bytes (fst (Linux.adv_data (bytes_of_string "DISP_01")))
                        (snd (Linux.adv_data (bytes_of_string "DISP_01")))) =
    Some [(0x01, [0x06]); (0x09, bytes_of_string "DISP_01")].
Proof.
  assert (H : (strlen (bytes_of_string "DISP_01") <= 26)%nat) by (vm_compute; lia).
  split; [exact H|].
  exact (proj1 (proj2 (proj2 (proj2 (proj2
           (linux_encoder_well_formed (bytes_of_string "DISP_01") H)))))).
Defined.

(** X3. For every name the bytes bluetoothFake.c builds read back as a
    flags record with value 0x06, a 16-bit service list holding 0x180D
    in little-endian order and a complete-name record holding the first
    [min(strlen, 22)] bytes of the name, with nothing left over; their
    number is the [index] passed to the controller. *)
Theorem bluetoothfake_encoder_well_formed (name : cstring) :
  let enc := BluetoothFake.adv_data name in
  let k := Nat.min (strlen name) 22 in
  Z.of_nat (length (first_bytes (fst enc) (snd enc))) = snd enc /\
  parse_ad (first_bytes (fst enc) (snd enc)) =
    Some [(0x01, [0x06]); (0x03, [0x0D; 0x18]); (0x09, take k name)].
Proof.
  intros enc k. subst enc.
  pose proof (bluetoothfake_first_bytes name) as Hfb. cbv zeta in Hfb. fold k in Hfb.
  rewrite Hfb. rewrite bluetoothfake_adv_data_eq. fold k. cbn [snd].
  pose proof (strlen_le_length name) as Hlen.
  assert (Htk : length (take k name) = k) by (rewrite length_take; lia).
  split.
  - rewrite length_app, Htk. simpl. lia.
  - apply parse_flags_uuid_name, Htk.
Qed.

(** X4. The encoders read the name only up to the cut: encoding the
    first [min(strlen, 22)] bytes alone (bluetoothFake.c), or the first
    [min(strlen, 29)] bytes alone (linux.c, the duplicate, ESP32.c),
    gives the same buffer and the same [index] as encoding the whole
    name, whatever follows those bytes. *)
Theorem encoders_read_kept_prefix_only (name : cstring) :
  BluetoothFake.adv_data (take (Nat.min (strlen name) 22) name)
    = BluetoothFake.adv_data name /\
  Linux.adv_data (take (Nat.min (strlen name) 29) name) = Linux.adv_data name /\
  ESP32.adv_data (take (Nat.min (strlen name) 29) name) = ESP32.adv_data name.
Proof.
  pose proof (strlen_le_length name) as Hlen.
  assert (Hbf : BluetoothFake.adv_data (take (Nat.min (strlen name) 22) name)
                = BluetoothFake.adv_data name).
  { rewrite !bluetoothfake_adv_data_eq.
    rewrite strlen_take by lia.
    replace (Nat.min (Nat.min (strlen name) 22) 22) with (Nat.min (strlen name) 22) by lia.
    rewrite take_take, Nat.min_id. reflexivity. }
  assert (Hlin : Linux.adv_data (take (Nat.min (strlen name) 29) name)
                 = Linux.adv_data name).
  { rewrite !linux_adv_data_any.
    rewrite strlen_take by lia.
    replace (Nat.min (Nat.min (strlen name) 29) 29) with (Nat.min (strlen name) 29) by lia.
    rewrite (take_take name), Nat.min_id. reflexivity. }
  split; [exact Hbf|]. split; exact Hlin.
Qed.

(** * Further properties of the loops *)

Lemma omap_concat {A B} (g : A -> option B) (ls : list (list A)) :
  omap g (concat ls) = concat (map (omap g) ls).
Proof.
  induction ls as [|l ls IH]; [reflexivity|].
  cbn [concat map]. rewrite omap_app, IH. reflexivity.
Qed.

(** As [cycles_Forall], for a property of the passes that needs an
    invariant of the cursor. *)
Lemma cycles_Forall_inv (I : Z -> Prop) (P : list event -> Prop)
      (body : Z -> io (option Z)) :
  (forall idx h, I idx -> P (events (body idx) h)) ->
  (forall idx h idx', I idx -> result (body idx) h = Some idx' -> I idx') ->
  forall fuel idx h, I idx -> Forall P (cycles body fuel idx h).
Proof.
  intros HP HI fuel. induction fuel as [|fuel IH]; intros idx h Hidx; cbn [cycles].
  - constructor.
  - specialize (HP idx h Hidx). specialize (HI idx h).
    unfold events, result in HP, HI.
    destruct (body idx h) as [[idx'|] e]; cbn [fst snd] in HP, HI;
      constructor; auto.
Qed.

(** An observation that every pass of a loop without exits shows once is
    shown once per cursor visited. *)
Lemma while_true_omap_visited {B} (g : event -> option B) (f : Z -> B)
      (body : Z -> io (option Z)) :
  (forall idx h, result (body idx) h = Some (next_idx idx)) ->
  (forall idx h, omap g (events (body idx) h) = [f idx]) ->
  forall n idx h,
    omap g (events (while_true body n idx) h) = map f (visited n idx).
Proof.
  intros Hres Hobs n. induction n as [|n IH]; intros idx h; [reflexivity|].
  cbn [while_true visited map]. rewrite events_bind, omap_app, Hobs, Hres.
  rewrite IH. reflexivity.
Qed.

Lemma next_idx_mod (idx : Z) : 0 <= idx < 3 -> next_idx idx = (idx + 1) mod 3.
Proof. intros H. unfold next_idx. apply Z.rem_mod_nonneg; lia. Qed.

Lemma visited_lookup (n : nat) :
  forall idx j,
    0 <= idx < 3 -> (j < n)%nat ->
    visited n idx !! j = Some ((idx + Z.of_nat j) mod 3).
Proof.
  induction n as [|n IH]; intros idx j Hidx Hj; [lia|].
  cbn [visited]. destruct j as [|j].
  - cbn. f_equal. rewrite Z.add_0_r, Z.mod_small; lia.
  - cbn [lookup list_lookup]. rewrite IH by (try apply next_idx_range; lia).
    f_equal. rewrite next_idx_mod by lia.
    rewrite Zplus_mod_idemp_l. f_equal. lia.
Qed.

Lemma cursor_after_mod (n : nat) (idx : Z) :
  0 <= idx < 3 -> cursor_after n idx = (idx + Z.of_nat n) mod 3.
Proof.
  intros Hidx. induction n as [|n IH].
  - cbn. rewrite Z.add_0_r, Z.mod_small; lia.
  - change (cursor_after (S n) idx) with (next_idx (cursor_after n idx)).
    rewrite next_idx_mod by (apply cursor_after_range, Hidx).
    rewrite IH, Zplus_mod_idemp_l. f_equal. lia.
Qed.

(** Case analysis of a pass that keeps the encoder's result in sight. *)
Ltac io_cases_enc :=
  try match goal with
      | |- context [BluetoothFake.adv_data ?n] =>
          rewrite (surjective_pairing (BluetoothFake.adv_data n))
      end;
  try match goal with
      | |- context [ESP32.adv_data ?n] =>
          rewrite (surjective_pairing (ESP32.adv_data n))
      end;
  try match goal with
      | |- context [Linux.adv_data ?n] =>
          rewrite (surjective_pairing (Linux.adv_data n))
      end;
  repeat first
    [ progress cbn [fst snd app]
    | progress change (0 <? 0) with false
    | progress change (-1 <? 0) with true
    | match goal with
      | |- context [if hci_send_cmd_ret ?h ?s ?c <? 0 then _ else _] =>
          let E := fresh "E" in destruct (hci_send_cmd_ret h s c <? 0) eqn:E
      end ];
  cbn [payloads addresses sleeps delays closes command_sockets
       printed_names logged_names omap list_omap fst snd app].

(** What every pass shows, whatever the controller replies. *)
Lemma esp32_pass_shows (idx : Z) (h : list event) :
  let body := fun i => i' <- ESP32.loop_body i ;; ret (Some i') in
  let enc := ESP32.adv_data (bytes_of_string (at_index "" ESP32.device_names idx)) in
  result (body idx) h = Some (next_idx idx) /\
  logged_names (events (body idx) h) = [at_index "" ESP32.device_names idx] /\
  addresses (events (body idx) h) = [at_index [] ESP32.device_macs idx] /\
  payloads (events (body idx) h) = [(snd enc, first_bytes (fst enc) (snd enc))] /\
  delays (events (body idx) h) = [2000].
Proof.
  intros body enc. subst body enc. io_unfold. io_cases_enc.
  repeat split; reflexivity.
Qed.

Lemma bluetoothfake_pass_shows `{BlueZ} (sock idx : Z) (h : list event) :
  let enc := BluetoothFake.adv_data
               (bytes_of_string (at_index "" BluetoothFake.names idx)) in
  printed_names (events (BluetoothFake.loop_body sock idx) h)
    = [at_index "" BluetoothFake.names idx] /\
  addresses (events (BluetoothFake.loop_body sock idx) h)
    = [at_index [] BluetoothFake.macs idx] /\
  payloads (events (BluetoothFake.loop_body sock idx) h)
    = [(snd enc, first_bytes (fst enc) (snd enc))] /\
  closes (events (BluetoothFake.loop_body sock idx) h) = [] /\
  Forall (fun s => s = sock)
    (command_sockets (events (BluetoothFake.loop_body sock idx) h)) /\
  sleeps (events (BluetoothFake.loop_body sock idx) h)
    = match result (BluetoothFake.loop_body sock idx) h with
      | Some _ => [2]
      | None => []
      end.
Proof.
  intros enc. subst enc. io_unfold. io_cases_enc.
  all: repeat split; try reflexivity; repeat constructor.
Qed.

Lemma linux_pass_shows `{BlueZ} (sock idx : Z) (h : list event) :
  printed_names (events (Linux.loop_body sock idx) h)
    = [at_index "" Linux.names idx] /\
  addresses (events (Linux.loop_body sock idx) h)
    = [at_index [] Linux.macs idx] /\
  payloads (events (Linux.loop_body sock idx) h) = [] /\
  closes (events (Linux.loop_body sock idx) h) = [] /\
  Forall (fun s => s = sock)
    (command_sockets (events (Linux.loop_body sock idx) h)) /\
  sleeps (events (Linux.loop_body sock idx) h)
    = match result (Linux.loop_body sock idx) h with
      | Some _ => [1]
      | None => []
      end.
Proof.
  io_unfold. io_cases_enc.
  all: repeat split; try reflexivity; repeat constructor.
Qed.

(** What every pass shows once is shown once per pass made, in the order
    of the cursors visited, whether or not the loop leaves. *)
Lemma while_true_omap_passes {B} (g : event -> option B) (f : Z -> B)
      (body : Z -> io (option Z)) :
  (forall idx h idx', result (body idx) h = Some idx' -> idx' = next_idx idx) ->
  (forall idx h, omap g (events (body idx) h) = [f idx]) ->
  forall n idx h,
    omap g (events (while_true body n idx) h)
    = map f (take (length (cycles body n idx h)) (visited n idx)).
Proof.
  intros Hres Hobs n. induction n as [|n IH]; intros idx h; [reflexivity|].
  cbn [while_true cycles visited]. rewrite events_bind, omap_app, Hobs.
  specialize (Hres idx h). unfold result, events in *.
  destruct (body idx h) as [[idx'|] e]; cbn [fst snd length take map].
  - rewrite (Hres idx' eq_refl). rewrite IH. reflexivity.
  - reflexivity.
Qed.

Lemma cycles_length_le (body : Z -> io (option Z)) (n : nat) :
  forall idx h, (length (cycles body n idx h) <= n)%nat.
Proof.
  induction n as [|n IH]; intros idx h; cbn [cycles]; [cbn; lia|].
  destruct (body idx h) as [[idx'|] e]; cbn [length]; [specialize (IH idx' (h ++ e))|];
    lia.
Qed.

Lemma visited_length (n : nat) : forall idx, length (visited n idx) = n.
Proof. induction n as [|n IH]; intros idx; cbn; [|rewrite IH]; reflexivity. Qed.

(** Pass [j] of a loop shows the observation of cursor [(idx + j) mod 3]. *)
Lemma schedule_lookup {B} (g : event -> option B) (f : Z -> B)
      (body : Z -> io (option Z)) :
  (forall idx h idx', result (body idx) h = Some idx' -> idx' = next_idx idx) ->
  (forall idx h, omap g (events (body idx) h) = [f idx]) ->
  forall n idx h j,
    0 <= idx < 3 ->
    (j < length (cycles body n idx h))%nat ->
    omap g (events (while_true body n idx) h) !! j
    = Some (f ((idx + Z.of_nat j) mod 3)).
Proof.
  intros Hres Hobs n idx h j Hidx Hj.
  pose proof (cycles_length_le body n idx h) as Hle.
  rewrite (while_true_omap_passes g f body Hres Hobs).
  rewrite list_lookup_fmap, lookup_take_lt by exact Hj.
  rewrite visited_lookup by lia. reflexivity.
Qed.

Lemma esp32_roster_payload (i : Z) :
  0 <= i < 3 ->
  let name := bytes_of_string (at_index "" ESP32.device_names i) in
  (snd (ESP32.adv_data name), first_bytes (fst (ESP32.adv_data name)) (snd (ESP32.adv_data name)))
  = (12, [2; 0x01; 0x06; 8; 0x09] ++ name) /\
  spill (fst (ESP32.adv_data name)) = [].
Proof.
  intros Hi. assert (i = 0 \/ i = 1 \/ i = 2) as [->|[->| ->]] by lia;
    split; vm_compute; reflexivity.
Qed.

Lemma bluetoothfake_roster_payload (i : Z) :
  0 <= i < 3 ->
  let name := bytes_of_string (at_index "" BluetoothFake.names i) in
  (snd (BluetoothFake.adv_data name),
   first_bytes (fst (BluetoothFake.adv_data name)) (snd (BluetoothFake.adv_data name)))
  = (20, [2; 0x01; 0x06; 3; 0x03; 0x0D; 0x18; 12; 0x09] ++ name).
Proof.
  intros Hi. assert (i = 0 \/ i = 1 \/ i = 2) as [->|[->| ->]] by lia;
    vm_compute; reflexivity.
Qed.

Lemma esp32_cycles_length (n : nat) :
  forall idx h,
    length (cycles (fun i => i' <- ESP32.loop_body i ;; ret (Some i')) n idx h) = n.
Proof.
  induction n as [|n IH]; intros idx h; [reflexivity|].
  cbn [cycles].
  pose proof (proj1 (esp32_pass_shows idx h)) as Hres. cbv zeta in Hres.
  unfold result in Hres.
  destruct ((i' <- ESP32.loop_body idx ;; ret (Some i')) h) as [r e].
  cbn [fst] in Hres. subst r. cbn [length]. rewrite IH. reflexivity.
Qed.

(** X5. Started with a cursor inside the roster, the loop of ESP32.c
    advertises in its pass [j] (counted from 0) the identity number
    [(idx + j) mod 3]: it logs that name, programs that address and
    hands the controller the 12 bytes made of the flags record and the
    complete-name record of that name, declared with the length 12;
    every pass waits 2000 ms, and after [n] passes the cursor is
    [(idx + n) mod 3]. *)
Theorem esp32_identity_schedule (idx : Z) (Hidx : 0 <= idx < 3)
        (n : nat) (h : list event) :
  let tr := events (ESP32.advertising_loop_task n idx) h in
  result (ESP32.advertising_loop_task n idx) h
    = Running ((idx + Z.of_nat n) mod 3) /\
  (forall j, (j < n)%nat ->
     let i := (idx + Z.of_nat j) mod 3 in
     logged_names tr !! j = Some (at_index "" ESP32.device_names i) /\
     addresses tr !! j = Some (at_index [] ESP32.device_macs i) /\
     payloads tr !! j =
       Some (12, [2; 0x01; 0x06; 8; 0x09]
                   ++ bytes_of_string (at_index "" ESP32.device_names i))) /\
  length (payloads tr) = n /\
  delays tr = replicate n 2000.
Proof.
  intros tr. subst tr. unfold ESP32.advertising_loop_task.
  set (body := fun i => i' <- ESP32.loop_body i ;; ret (Some i')).
  assert (Hres : forall i h' i', result (body i) h' = Some i' -> i' = next_idx i).
  { intros i h' i' Hr. pose proof (proj1 (esp32_pass_shows i h')) as Hs.
    cbv zeta in Hs. fold body in Hs. congruence. }
  assert (Hres' : forall i h', result (body i) h' = Some (next_idx i)).
  { intros i h'. exact (proj1 (esp32_pass_shows i h')). }
  assert (Hlen : length (cycles body n idx h) = n) by apply esp32_cycles_length.
  split; [|split; [|split]].
  - rewrite <- cursor_after_mod by exact Hidx.
    exact (esp32_loop_running n idx h).
  - intros j Hj. set (i := (idx + Z.of_nat j) mod 3).
    assert (Hi : 0 <= i < 3) by (subst i; apply Z.mod_pos_bound; lia).
    split; [|split].
    + apply (schedule_lookup _ (fun i => at_index "" ESP32.device_names i) body Hres);
        [|exact Hidx|lia].
      intros i0 h'. exact (proj1 (proj2 (esp32_pass_shows i0 h'))).
    + apply (schedule_lookup _ (fun i => at_index [] ESP32.device_macs i) body Hres);
        [|exact Hidx|lia].
      intros i0 h'. exact (proj1 (proj2 (proj2 (esp32_pass_shows i0 h')))).
    + rewrite <- (proj1 (esp32_roster_payload i Hi)).
      apply (schedule_lookup _
               (fun i => let enc := ESP32.adv_data
                                      (bytes_of_string (at_index "" ESP32.device_names i)) in
                         (snd enc, first_bytes (fst enc) (snd enc))) body Hres);
        [|exact Hidx|lia].
      intros i0 h'. exact (proj1 (proj2 (proj2 (proj2 (esp32_pass_shows i0 h'))))).
  - unfold payloads.
    rewrite (while_true_omap_visited _ _ body Hres'
               (fun i0 h' => proj1 (proj2 (proj2 (proj2 (esp32_pass_shows i0 h')))))).
    rewrite length_map, visited_length. reflexivity.
  - unfold delays.
    rewrite (while_true_omap_visited _ (fun _ => 2000) body Hres'
               (fun i0 h' => proj2 (proj2 (proj2 (proj2 (esp32_pass_shows i0 h')))))).
    generalize idx. induction n as [|n IH]; intros i0; [reflexivity|].
    cbn [visited map replicate]. f_equal. apply IH.
    apply esp32_cycles_length.
Qed.

Lemma linux_pass_next `{BlueZ} (sock idx : Z) (h : list event) (idx' : Z) :
  result (Linux.loop_body sock idx) h = Some idx' -> idx' = next_idx idx.
Proof.
  io_unfold. io_cases. all: intros Hr; congruence.
Qed.

Lemma bluetoothfake_pass_next `{BlueZ} (sock idx : Z) (h : list event) (idx' : Z) :
  result (BluetoothFake.loop_body sock idx) h = Some idx' -> idx' = next_idx idx.
Proof.
  io_unfold. io_cases. all: intros Hr; congruence.
Qed.

(** An observation no pass shows is not shown by the loop. *)
Lemma while_true_omap_nil {B} (g : event -> option B) (body : Z -> io (option Z)) :
  (forall idx h, omap g (events (body idx) h) = []) ->
  forall n idx h, omap g (events (while_true body n idx) h) = [].
Proof.
  intros Hobs n idx h. rewrite while_true_events, omap_concat.
  pose proof (cycles_Forall (fun c => omap g c = []) body Hobs n idx h) as Hall.
  induction Hall as [|c cs Hc _ IH]; [reflexivity|].
  cbn [map concat]. rewrite Hc, IH. reflexivity.
Qed.

Lemma while_true_omap_Forall {B} (g : event -> option B) (P : B -> Prop)
      (body : Z -> io (option Z)) :
  (forall idx h, Forall P (omap g (events (body idx) h))) ->
  forall n idx h, Forall P (omap g (events (while_true body n idx) h)).
Proof.
  intros Hobs n idx h. rewrite while_true_events, omap_concat.
  pose proof (cycles_Forall (fun c => Forall P (omap g c)) body Hobs n idx h) as Hall.
  induction Hall as [|c cs Hc _ IH]; [constructor|].
  cbn [map concat]. apply Forall_app. auto.
Qed.

(** The waits of a loop: one per pass that reached its end. *)
Lemma while_true_sleeps (d : Z) (body : Z -> io (option Z)) :
  (forall idx h,
      sleeps (events (body idx) h)
      = match result (body idx) h with Some _ => [d] | None => [] end) ->
  forall n idx h,
    sleeps (events (while_true body n idx) h)
    = replicate (completed_passes body n idx h) d.
Proof.
  intros Hobs n. induction n as [|n IH]; intros idx h; [reflexivity|].
  cbn [while_true completed_passes]. rewrite events_bind.
  unfold sleeps in *. rewrite omap_app, Hobs.
  unfold result, events in *.
  destruct (body idx h) as [[idx'|] e]; cbn [fst snd].
  - rewrite IH. reflexivity.
  - reflexivity.
Qed.

(** The three ways [main] of linux.c can stand after [fuel] passes. *)
Lemma linux_main_cases `{BlueZ} (fuel : nat) (h : list event) :
  let sock := hci_open_dev hci_get_route in
  (sock < 0 /\
   result (Linux.main fuel) h = Some 1 /\
   events (Linux.main fuel) h = [Perror "opening HCI device"]) \/
  (0 <= sock /\
   (exists i, result (Linux.main_loop fuel sock 0) h = Running i) /\
   result (Linux.main fuel) h = None /\
   events (Linux.main fuel) h = events (Linux.main_loop fuel sock 0) h) \/
  (0 <= sock /\
   result (Linux.main_loop fuel sock 0) h = Broke /\
   result (Linux.main fuel) h = Some 0 /\
   exists log,
     events (Linux.main fuel) h =
       events (Linux.main_loop fuel sock 0) h
         ++ HciSendCmd sock (LE_SET_ADVERTISE_ENABLE 0) :: log ++ [Close sock] /\
     (log = [] \/ log = [Perror "Disable advertising failed"])).
Proof.
  intros sock. unfold Linux.main. fold sock.
  destruct (Z.ltb_spec sock 0) as [Hneg|Hpos].
  - left. split; [exact Hneg|]. split; reflexivity.
  - right. rewrite result_bind, events_bind.
    destruct (result (Linux.main_loop fuel sock 0) h) as [|i] eqn:Hloop.
    + right.
      destruct (cleanup_events sock (h ++ events (Linux.main_loop fuel sock 0) h))
        as (log & Hev & Hlog & Hres).
      split; [exact Hpos|]. split; [reflexivity|]. split; [exact Hres|].
      exists log. rewrite Hev. auto.
    + left. split; [exact Hpos|]. split; [eauto|]. split; [reflexivity|].
      cbn [events ret snd]. apply app_nil_r.
Qed.

(** The same for [main] of bluetoothFake.c. *)
Lemma bluetoothfake_main_cases `{BlueZ} (fuel : nat) (h : list event) :
  let sock := hci_open_dev hci_get_route in
  let hello := Printf ("Iniciando simulação de dispositivos BLE..." +:+ newline) [] in
  let bye := Printf (newline +:+ "Parando anúncio e fechando socket." +:+ newline) [] in
  ((hci_get_route < 0 \/ sock < 0) /\
   result (BluetoothFake.main fuel) h = Some 1 /\
   exists msg, events (BluetoothFake.main fuel) h = [Perror msg]) \/
  (0 <= hci_get_route /\ 0 <= sock /\
   (exists i, result (BluetoothFake.main_loop fuel sock 0) (h ++ [hello]) = Running i) /\
   result (BluetoothFake.main fuel) h = None /\
   events (BluetoothFake.main fuel) h =
     hello :: events (BluetoothFake.main_loop fuel sock 0) (h ++ [hello])) \/
  (0 <= hci_get_route /\ 0 <= sock /\
   result (BluetoothFake.main_loop fuel sock 0) (h ++ [hello]) = Broke /\
   result (BluetoothFake.main fuel) h = Some 0 /\
   exists log,
     events (BluetoothFake.main fuel) h =
       hello :: events (BluetoothFake.main_loop fuel sock 0) (h ++ [hello])
         ++ bye :: HciSendCmd sock (LE_SET_ADVERTISE_ENABLE 0) :: log ++ [Close sock] /\
     (log = [] \/ log = [Perror "Disable advertising failed"])).
Proof.
  intros sock hello bye. unfold BluetoothFake.main.
  destruct (Z.ltb_spec hci_get_route 0) as [Hdneg|Hdpos].
  { left. split; [left; exact Hdneg|]. split; [reflexivity|]. eexists. reflexivity. }
  fold sock.
  destruct (Z.ltb_spec sock 0) as [Hneg|Hpos].
  { left. split; [right; exact Hneg|]. split; [reflexivity|]. eexists. reflexivity. }
  right. rewrite result_bind, events_bind.
  change (events (printf ("Iniciando simulação de dispositivos BLE..." +:+ newline) []) h)
    with [hello].
  rewrite result_bind, events_bind.
  destruct (result (BluetoothFake.main_loop fuel sock 0) (h ++ [hello])) as [|i] eqn:Hloop.
  - right. rewrite result_bind, events_bind.
    change (events (printf (newline +:+ "Parando anúncio e fechando socket." +:+ newline) [])
              ((h ++ [hello]) ++ events (BluetoothFake.main_loop fuel sock 0) (h ++ [hello])))
      with [bye].
    destruct (cleanup_events sock
                (((h ++ [hello]) ++ events (BluetoothFake.main_loop fuel sock 0)
                                      (h ++ [hello])) ++ [bye]))
      as (log & Hev & Hlog & Hres).
    split; [exact Hdpos|]. split; [exact Hpos|]. split; [reflexivity|].
    split; [exact Hres|].
    exists log. rewrite Hev. split; [reflexivity|exact Hlog].
  - left. split; [exact Hdpos|]. split; [exact Hpos|]. split; [eauto|].
    split; [reflexivity|].
    cbn [events ret snd]. rewrite app_nil_r. reflexivity.
Qed.

Lemma bluetoothfake_payload_well_formed (name : cstring) :
  well_formed_payload
    (snd (BluetoothFake.adv_data name),
     first_bytes (fst (BluetoothFake.adv_data name)) (snd (BluetoothFake.adv_data name))).
Proof.
  unfold well_formed_payload. cbn [fst snd].
  pose proof (bluetoothfake_first_bytes name) as Hfb. cbv zeta in Hfb.
  pose proof (bluetoothfake_payload_bound name) as (Hle & _ & _).
  pose proof (strlen_le_length name) as Hlen.
  set (k := Nat.min (strlen name) 22) in *.
  assert (Htk : length (take k name) = k) by (rewrite length_take; lia).
  rewrite Hfb. split; [|split; [exact Hle|]].
  - rewrite bluetoothfake_adv_data_eq. fold k. cbn [snd].
    rewrite length_app, Htk. simpl. lia.
  - exists (take k name). split; [lia|]. apply parse_flags_uuid_name, Htk.
Qed.

(** X6. Whatever the controller replies, every payload bluetoothFake.c
    hands to it, in any run of the loop or of [main], is well formed:
    the length passed is the number of bytes, at most 31, and the bytes
    read back as flags, heart-rate service list and a complete name of
    at most 22 bytes; each pass hands over exactly one payload. *)
Theorem bluetoothfake_payloads_well_formed `{BlueZ} (fuel : nat) (sock idx : Z)
        (h : list event) :
  Forall well_formed_payload
    (payloads (events (BluetoothFake.main_loop fuel sock idx) h)) /\
  length (payloads (events (BluetoothFake.main_loop fuel sock idx) h))
    = length (cycles (BluetoothFake.loop_body sock) fuel idx h) /\
  Forall well_formed_payload (payloads (events (BluetoothFake.main fuel) h)).
Proof.
  assert (Hloop : forall s i h',
             Forall well_formed_payload
               (payloads (events (BluetoothFake.main_loop fuel s i) h'))).
  { intros s i h'. apply while_true_omap_Forall. intros i0 h0.
    pose proof (bluetoothfake_pass_shows s i0 h0) as (_ & _ & Hp & _).
    cbv zeta in Hp. unfold payloads in Hp. rewrite Hp.
    constructor; [apply bluetoothfake_payload_well_formed|constructor]. }
  split; [apply Hloop|]. split.
  - unfold BluetoothFake.main_loop, payloads.
    rewrite (while_true_omap_passes _
               (fun i => let enc := BluetoothFake.adv_data
                                      (bytes_of_string (at_index "" BluetoothFake.names i)) in
                         (snd enc, first_bytes (fst enc) (snd enc)))
               (BluetoothFake.loop_body sock)
               (bluetoothfake_pass_next sock)
               (fun i0 h0 => proj1 (proj2 (proj2 (bluetoothfake_pass_shows sock i0 h0))))).
    rewrite length_map, length_take, visited_length.
    pose proof (cycles_length_le (BluetoothFake.loop_body sock) fuel idx h). lia.
  - destruct (bluetoothfake_main_cases fuel h)
      as [(_ & _ & msg & Hev)|[(_ & _ & _ & _ & Hev)|(_ & _ & _ & _ & log & Hev & Hlog)]];
      rewrite Hev.
    + constructor.
    + apply Hloop.
    + unfold payloads. cbn [omap list_omap]. rewrite omap_app. apply Forall_app.
      split; [apply Hloop|].
      destruct Hlog as [-> | ->]; constructor.
Qed.

(** X7. Started with a cursor inside the roster, linux.c (and the
    duplicate) and bluetoothFake.c use in pass [j] of the loop, for
    every pass made and whatever the controller replies, the identity
    number [(idx + j) mod 3]: the name printed and the address
    programmed are those of that entry, and bluetoothFake.c hands the
    controller the 20 bytes encoding that name. *)
Theorem linux_identity_schedule `{BlueZ} (idx : Z) (Hidx : 0 <= idx < 3)
        (fuel : nat) (sock : Z) (h : list event) (j : nat) :
  let i := (idx + Z.of_nat j) mod 3 in
  ((j < length (cycles (Linux.loop_body sock) fuel idx h))%nat ->
   let tr := events (Linux.main_loop fuel sock idx) h in
   printed_names tr !! j = Some (at_index "" Linux.names i) /\
   addresses tr !! j = Some (str2ba (at_index "" Linux.macs_str i))) /\
  ((j < length (cycles (BluetoothFake.loop_body sock) fuel idx h))%nat ->
   let tr := events (BluetoothFake.main_loop fuel sock idx) h in
   printed_names tr !! j = Some (at_index "" BluetoothFake.names i) /\
   addresses tr !! j = Some (str2ba (at_index "" BluetoothFake.macs_str i)) /\
   payloads tr !! j =
     Some (20, [2; 0x01; 0x06; 3; 0x03; 0x0D; 0x18; 12; 0x09]
                 ++ bytes_of_string (at_index "" BluetoothFake.names i))).
Proof.
  intros i.
  assert (Hi : 0 <= i < 3) by (subst i; apply Z.mod_pos_bound; lia).
  assert (Hmac : forall strs, length strs = 3%nat ->
             at_index [] (map str2ba strs) i = str2ba (at_index "" strs i)).
  { intros strs Hlen. destruct strs as [|a [|b [|c [|]]]]; try discriminate Hlen.
    assert (i = 0 \/ i = 1 \/ i = 2) as [->|[->| ->]] by lia; reflexivity. }
  split; intros Hj tr; subst tr.
  - split.
    + apply (schedule_lookup _ (fun i => at_index "" Linux.names i)
               (Linux.loop_body sock) (linux_pass_next sock));
        [|exact Hidx|exact Hj].
      intros i0 h0. exact (proj1 (linux_pass_shows sock i0 h0)).
    + rewrite <- (Hmac Linux.macs_str eq_refl).
      apply (schedule_lookup _ (fun i => at_index [] Linux.macs i)
               (Linux.loop_body sock) (linux_pass_next sock));
        [|exact Hidx|exact Hj].
      intros i0 h0. exact (proj1 (proj2 (linux_pass_shows sock i0 h0))).
  - split; [|split].
    + apply (schedule_lookup _ (fun i => at_index "" BluetoothFake.names i)
               (BluetoothFake.loop_body sock) (bluetoothfake_pass_next sock));
        [|exact Hidx|exact Hj].
      intros i0 h0. exact (proj1 (bluetoothfake_pass_shows sock i0 h0)).
    + rewrite <- (Hmac BluetoothFake.macs_str eq_refl).
      apply (schedule_lookup _ (fun i => at_index [] BluetoothFake.macs i)
               (BluetoothFake.loop_body sock) (bluetoothfake_pass_next sock));
        [|exact Hidx|exact Hj].
      intros i0 h0. exact (proj1 (proj2 (bluetoothfake_pass_shows sock i0 h0))).
    + rewrite <- (bluetoothfake_roster_payload i Hi).
      apply (schedule_lookup _
               (fun i => let enc := BluetoothFake.adv_data
                                      (bytes_of_string (at_index "" BluetoothFake.names i)) in
                         (snd enc, first_bytes (fst enc) (snd enc)))
               (BluetoothFake.loop_body sock) (bluetoothfake_pass_next sock));
        [|exact Hidx|exact Hj].
      intros i0 h0. exact (proj1 (proj2 (proj2 (bluetoothfake_pass_shows sock i0 h0)))).
Qed.

(** A pass of bluetoothFake.c that ends in [break] ends with a failed
    set-payload, set-parameters or enable command and its report. *)
Lemma bluetoothfake_pass_break `{BlueZ} (sock idx : Z) (h : list event) :
  result (BluetoothFake.loop_body sock idx) h = None ->
  exists pre c msg,
    events (BluetoothFake.loop_body sock idx) h
      = pre ++ [HciSendCmd sock c; Perror msg] /\
    hci_send_cmd_ret (h ++ pre) sock c < 0 /\
    fatal_cmd c.
Proof.
  io_unfold. io_cases. all: intros Hres; try discriminate Hres.
  all: repeat match goal with
         | E : (_ <? 0) = true |- _ => apply Z.ltb_lt in E
         | E : (_ <? 0) = false |- _ => clear E
         end.
  all: rewrite <- ?app_assoc in *; cbn [app] in *.
  all: match goal with
       | |- exists _ _ _, ?ev = _ /\ _ =>
           exists (take (length ev - 2) ev)
       end; cbn [length Nat.sub take]; do 2 eexists.
  all: (split; [reflexivity|split; [eassumption|]]).
  all: unfold fatal_cmd, params_or_start.
  all: first [ left; do 2 eexists; reflexivity
             | right; left; eexists; reflexivity
             | right; right; reflexivity ].
Qed.

(** X8. The loop of bluetoothFake.c leaves only through a failed fatal
    step: when it has left, its trace ends with a set-payload,
    set-parameters or enable command whose reply was negative, followed
    by the report of that failure. *)
Theorem bluetoothfake_leaves_on_fatal_failure `{BlueZ} (sock : Z) (fuel : nat)
        (idx : Z) (h : list event)
        (Hbroke : result (BluetoothFake.main_loop fuel sock idx) h = Broke) :
  exists pre c msg,
    events (BluetoothFake.main_loop fuel sock idx) h
      = pre ++ [HciSendCmd sock c; Perror msg] /\
    hci_send_cmd_ret (h ++ pre) sock c < 0 /\
    fatal_cmd c.
Proof.
  revert idx h Hbroke. unfold BluetoothFake.main_loop.
  induction fuel as [|fuel IH]; intros idx h Hb; [discriminate Hb|].
  cbn [while_true] in *. rewrite result_bind in Hb. rewrite events_bind.
  destruct (result (BluetoothFake.loop_body sock idx) h) as [idx'|] eqn:Hr.
  - destruct (IH _ _ Hb) as (pre & c & msg & Hev & Hlt & Hc).
    exists (events (BluetoothFake.loop_body sock idx) h ++ pre), c, msg.
    rewrite Hev, !app_assoc. auto.
  - destruct (bluetoothfake_pass_break sock idx h Hr)
      as (pre & c & msg & Hev & Hlt & Hc).
    exists pre, c, msg. cbn [events ret snd]. rewrite app_nil_r. auto.
Qed.

Lemma bluetoothfake_leaves_on_fatal_failure_witness :
  exists pre c msg,
    events (@BluetoothFake.main_loop data_fails 2 3 0) []
      = pre ++ [HciSendCmd 3 c; Perror msg] /\
    @hci_send_cmd_ret data_fails ([] ++ pre) 3 c < 0 /\
    fatal_cmd c.
Proof.
  apply (@bluetoothfake_leaves_on_fatal_failure data_fails 3 2 0 []).
  reflexivity.
Defined.

Ltac data_rejected Hrej :=
  try (exfalso;
       match goal with
       | E : (hci_send_cmd_ret ?h ?s (LE_SET_ADVERTISING_DATA ?p ?q) <? 0) = false |- _ =>
           apply Z.ltb_ge in E; pose proof (Hrej h s p q); lia
       end).

Ltac data_accepted Hacc :=
  try (exfalso;
       match goal with
       | E : (hci_send_cmd_ret ?h ?s (LE_SET_ADVERTISING_DATA ?p ?q) <? 0) = true |- _ =>
           apply Z.ltb_lt in E; pose proof (Hacc h s p q); lia
       end).

Ltac params_rejected Hrej :=
  try (exfalso;
       match goal with
       | E : (hci_send_cmd_ret ?h ?s (LE_SET_ADVERTISING_PARAMETERS ?cp) <? 0) = false |- _ =>
           apply Z.ltb_ge in E; pose proof (Hrej h s cp); lia
       end).

Lemma radio_ops_stop_log (log : list event) :
  log = [] \/ log = [Perror "Disable advertising failed"] -> radio_ops log = [].
Proof. intros [-> | ->]; reflexivity. Qed.

(** X9. If the controller rejects the set-advertising-data command,
    [main] of bluetoothFake.c makes one pass only, never sends the
    set-parameters or the enable command, stops, closes and returns 0:
    its radio operations are stop, set-address, set-payload, stop. *)
Theorem payload_rejected_never_starts `{BlueZ}
        (Hrej : forall h s plen param,
            hci_send_cmd_ret h s (LE_SET_ADVERTISING_DATA plen param) < 0)
        (Hdev : 0 <= hci_get_route) (Hsock : 0 <= hci_open_dev hci_get_route)
        (fuel : nat) (h : list event) :
  result (BluetoothFake.main (S fuel)) h = Some 0 /\
  radio_ops (events (BluetoothFake.main (S fuel)) h)
    = [Stop; SetAddress; SetPayload; Stop] /\
  completed_passes (BluetoothFake.loop_body (hci_open_dev hci_get_route)) (S fuel) 0
    (h ++ [Printf ("Iniciando simulação de dispositivos BLE..." +:+ newline) []]) = O.
Proof.
  set (sock := hci_open_dev hci_get_route) in *.
  set (hello := Printf ("Iniciando simulação de dispositivos BLE..." +:+ newline) []).
  assert (Hpass : forall i h',
             result (BluetoothFake.loop_body sock i) h' = None /\
             radio_ops (events (BluetoothFake.loop_body sock i) h')
               = [Stop; SetAddress; SetPayload]).
  { intros i h'. io_unfold. io_cases. all: data_rejected Hrej.
    all: split; reflexivity. }
  assert (Hloop : result (BluetoothFake.main_loop (S fuel) sock 0) (h ++ [hello]) = Broke /\
                  events (BluetoothFake.main_loop (S fuel) sock 0) (h ++ [hello])
                  = events (BluetoothFake.loop_body sock 0) (h ++ [hello])).
  { unfold BluetoothFake.main_loop. cbn [while_true].
    rewrite result_bind, events_bind, (proj1 (Hpass 0 (h ++ [hello]))).
    split; [reflexivity|]. cbn [events ret snd]. apply app_nil_r. }
  destruct Hloop as [Hb Hev].
  split; [|split].
  - destruct (bluetoothfake_main_cases (S fuel) h)
      as [([Hd|Hs] & _)|[(_ & _ & [i Hrun] & _)|(_ & _ & _ & Hres & _)]].
    + lia.
    + fold sock in Hs. lia.
    + fold sock hello in Hrun. congruence.
    + exact Hres.
  - destruct (bluetoothfake_main_cases (S fuel) h)
      as [([Hd|Hs] & _)|[(_ & _ & [i Hrun] & _)|(_ & _ & _ & _ & log & Hmain & Hlog)]].
    + lia.
    + fold sock in Hs. lia.
    + fold sock hello in Hrun. congruence.
    + rewrite Hmain. fold sock hello. rewrite Hev.
      change (hello :: ?l) with ([hello] ++ l).
      rewrite !radio_ops_app, (proj2 (Hpass 0 (h ++ [hello]))).
      change (?a :: HciSendCmd sock (LE_SET_ADVERTISE_ENABLE 0) :: log ++ [Close sock])
        with ([a; HciSendCmd sock (LE_SET_ADVERTISE_ENABLE 0)] ++ log ++ [Close sock]).
      rewrite !radio_ops_app, (radio_ops_stop_log log Hlog). reflexivity.
  - cbn [completed_passes].
    pose proof (proj1 (Hpass 0 (h ++ [hello]))) as Hnone. unfold result in Hnone.
    fold hello. destruct (BluetoothFake.loop_body sock 0 (h ++ [hello])) as [r e].
    cbn [fst] in Hnone. subst r. reflexivity.
Qed.

Lemma payload_rejected_never_starts_witness :
  result (@BluetoothFake.main data_fails 5) [] = Some 0 /\
  radio_ops (events (@BluetoothFake.main data_fails 5) [])
    = [Stop; SetAddress; SetPayload; Stop].
Proof.
  destruct (@payload_rejected_never_starts data_fails
              ltac:(intros; simpl; lia) ltac:(simpl; lia) ltac:(simpl; lia) 4 [])
    as (Hres & Hops & _).
  split; [exact Hres|exact Hops].
Defined.

(** [main] after a first pass that leaves the loop. *)
Lemma linux_main_first_pass_breaks `{BlueZ} (fuel : nat) (h : list event) :
  let sock := hci_open_dev hci_get_route in
  0 <= sock ->
  result (Linux.loop_body sock 0) h = None ->
  result (Linux.main (S fuel)) h = Some 0 /\
  radio_ops (events (Linux.main (S fuel)) h)
    = radio_ops (events (Linux.loop_body sock 0) h) ++ [Stop].
Proof.
  intros sock Hsock Hnone.
  assert (Hb : result (Linux.main_loop (S fuel) sock 0) h = Broke /\
               events (Linux.main_loop (S fuel) sock 0) h
               = events (Linux.loop_body sock 0) h).
  { unfold Linux.main_loop. cbn [while_true].
    rewrite result_bind, events_bind, Hnone.
    split; [reflexivity|]. cbn [events ret snd]. apply app_nil_r. }
  destruct Hb as [Hb Hev].
  destruct (linux_main_cases (S fuel) h)
    as [(Hs & _)|[(_ & [i Hrun] & _)|(_ & _ & Hres & log & Hmain & Hlog)]].
  - fold sock in Hs. lia.
  - fold sock in Hrun. congruence.
  - split; [exact Hres|]. rewrite Hmain. fold sock. rewrite Hev.
    change (HciSendCmd sock (LE_SET_ADVERTISE_ENABLE 0) :: log ++ [Close sock])
      with ([HciSendCmd sock (LE_SET_ADVERTISE_ENABLE 0)] ++ log ++ [Close sock]).
    rewrite !radio_ops_app, (radio_ops_stop_log log Hlog). reflexivity.
Qed.

Lemma bluetoothfake_main_first_pass_breaks `{BlueZ} (fuel : nat) (h : list event) :
  let sock := hci_open_dev hci_get_route in
  let hello := Printf ("Iniciando simulação de dispositivos BLE..." +:+ newline) [] in
  0 <= hci_get_route -> 0 <= sock ->
  result (BluetoothFake.loop_body sock 0) (h ++ [hello]) = None ->
  result (BluetoothFake.main (S fuel)) h = Some 0 /\
  radio_ops (events (BluetoothFake.main (S fuel)) h)
    = radio_ops (events (BluetoothFake.loop_body sock 0) (h ++ [hello])) ++ [Stop].
Proof.
  intros sock hello Hdev Hsock Hnone.
  assert (Hb : result (BluetoothFake.main_loop (S fuel) sock 0) (h ++ [hello]) = Broke /\
               events (BluetoothFake.main_loop (S fuel) sock 0) (h ++ [hello])
               = events (BluetoothFake.loop_body sock 0) (h ++ [hello])).
  { unfold BluetoothFake.main_loop. cbn [while_true].
    rewrite result_bind, events_bind, Hnone.
    split; [reflexivity|]. cbn [events ret snd]. apply app_nil_r. }
  destruct Hb as [Hb Hev].
  destruct (bluetoothfake_main_cases (S fuel) h)
    as [([Hd|Hs] & _)|[(_ & _ & [i Hrun] & _)|(_ & _ & _ & Hres & log & Hmain & Hlog)]].
  - lia.
  - fold sock in Hs. lia.
  - fold sock hello in Hrun. congruence.
  - split; [exact Hres|]. rewrite Hmain. fold sock hello. rewrite Hev.
    change (hello :: ?l) with ([hello] ++ l).
    change (?a :: HciSendCmd sock (LE_SET_ADVERTISE_ENABLE 0) :: log ++ [Close sock])
      with ([a; HciSendCmd sock (LE_SET_ADVERTISE_ENABLE 0)] ++ log ++ [Close sock]).
    rewrite !radio_ops_app, (radio_ops_stop_log log Hlog). reflexivity.
Qed.

(** X10. If the controller rejects the set-parameters command (and
    accepts the payload), [main] of linux.c and of bluetoothFake.c makes
    one pass only, never sends the enable command, stops, closes and
    returns 0. *)
Theorem parameters_rejected_never_starts `{BlueZ}
        (Hrej : forall h s cp,
            hci_send_cmd_ret h s (LE_SET_ADVERTISING_PARAMETERS cp) < 0)
        (Hacc : forall h s plen param,
            0 <= hci_send_cmd_ret h s (LE_SET_ADVERTISING_DATA plen param))
        (Hdev : 0 <= hci_get_route) (Hsock : 0 <= hci_open_dev hci_get_route)
        (fuel : nat) (h : list event) :
  (result (Linux.main (S fuel)) h = Some 0 /\
   radio_ops (events (Linux.main (S fuel)) h)
     = [Stop; SetAddress; SetParameters; Stop]) /\
  (result (BluetoothFake.main (S fuel)) h = Some 0 /\
   radio_ops (events (BluetoothFake.main (S fuel)) h)
     = [Stop; SetAddress; SetPayload; SetParameters; Stop]).
Proof.
  set (sock := hci_open_dev hci_get_route) in *.
  assert (Hlin : forall i h',
             result (Linux.loop_body sock i) h' = None /\
             radio_ops (events (Linux.loop_body sock i) h')
               = [Stop; SetAddress; SetParameters]).
  { intros i h'. io_unfold. io_cases. all: params_rejected Hrej.
    all: split; reflexivity. }
  assert (Hbf : forall i h',
             result (BluetoothFake.loop_body sock i) h' = None /\
             radio_ops (events (BluetoothFake.loop_body sock i) h')
               = [Stop; SetAddress; SetPayload; SetParameters]).
  { intros i h'. io_unfold. io_cases. all: params_rejected Hrej.
    all: data_accepted Hacc. all: split; reflexivity. }
  split.
  - destruct (linux_main_first_pass_breaks fuel h Hsock (proj1 (Hlin 0 h)))
      as [Hres Hops].
    split; [exact Hres|]. rewrite Hops. fold sock.
    rewrite (proj2 (Hlin 0 h)). reflexivity.
  - destruct (bluetoothfake_main_first_pass_breaks fuel h Hdev Hsock
                (proj1 (Hbf 0 _))) as [Hres Hops].
    split; [exact Hres|]. rewrite Hops. fold sock.
    rewrite (proj2 (Hbf 0 _)). reflexivity.
Qed.

Lemma parameters_rejected_never_starts_witness :
  radio_ops (events (@Linux.main params_fails 3) [])
    = [Stop; SetAddress; SetParameters; Stop] /\
  radio_ops (events (@BluetoothFake.main params_fails 3) [])
    = [Stop; SetAddress; SetPayload; SetParameters; Stop].
Proof.
  destruct (@parameters_rejected_never_starts params_fails
              ltac:(intros; simpl; lia) ltac:(intros; simpl; lia)
              ltac:(simpl; lia) ltac:(simpl; lia) 2 [])
    as ((_ & Hlin) & (_ & Hbf)).
  split; [exact Hlin|exact Hbf].
Defined.

Lemma completed_passes_all (body : Z -> io (option Z)) :
  (forall idx h, result (body idx) h = Some (next_idx idx)) ->
  forall n idx h, completed_passes body n idx h = n.
Proof.
  intros Hres n. induction n as [|n IH]; intros idx h; [reflexivity|].
  cbn [completed_passes]. specialize (Hres idx h). unfold result in Hres.
  destruct (body idx h) as [r e]. cbn [fst] in Hres. subst r.
  rewrite IH. reflexivity.
Qed.

Lemma completed_passes_le (body : Z -> io (option Z)) (n : nat) :
  forall idx h, (completed_passes body n idx h <= n)%nat.
Proof.
  induction n as [|n IH]; intros idx h; cbn [completed_passes]; [lia|].
  destruct (body idx h) as [[idx'|] e]; [specialize (IH idx' (h ++ e))|]; lia.
Qed.

(** X11. While the controller accepts the set-payload, set-parameters
    and enable commands, and a device could be opened, [main] of linux.c
    and of bluetoothFake.c does not return, whatever the fuel: every
    pass reaches its end and the socket is never closed. *)
Theorem main_runs_on_while_fatal_steps_succeed `{BlueZ}
        (Hok : forall h s c,
            (forall mac, c <> LE_SET_RANDOM_ADDRESS mac) ->
            c <> LE_SET_ADVERTISE_ENABLE 0 ->
            0 <= hci_send_cmd_ret h s c)
        (Hdev : 0 <= hci_get_route) (Hsock : 0 <= hci_open_dev hci_get_route)
        (fuel : nat) (h : list event) :
  let sock := hci_open_dev hci_get_route in
  (result (Linux.main fuel) h = None /\
   closes (events (Linux.main fuel) h) = [] /\
   forall idx h', completed_passes (Linux.loop_body sock) fuel idx h' = fuel) /\
  (result (BluetoothFake.main fuel) h = None /\
   closes (events (BluetoothFake.main fuel) h) = [] /\
   forall idx h', completed_passes (BluetoothFake.loop_body sock) fuel idx h' = fuel).
Proof.
  intros sock.
  assert (Hlin : forall i h', result (Linux.loop_body sock i) h' = Some (next_idx i))
    by (intros; apply (linux_pass_completes Hok)).
  assert (Hbf : forall i h', result (BluetoothFake.loop_body sock i) h' = Some (next_idx i))
    by (intros; apply (bluetoothfake_pass_completes Hok)).
  split.
  - destruct (linux_main_cases fuel h)
      as [(Hs & _)|[(_ & _ & Hres & Hev)|(_ & Hb & _)]].
    + fold sock in Hs. lia.
    + split; [exact Hres|]. split; [|apply completed_passes_all, Hlin].
      rewrite Hev. apply while_true_omap_nil.
      intros i h'. exact (proj1 (proj2 (proj2 (proj2 (linux_pass_shows _ i h'))))).
    + fold sock in Hb. unfold Linux.main_loop in Hb.
      rewrite (proj1 (while_true_never_breaks _ Hlin fuel 0 h)) in Hb. discriminate Hb.
  - destruct (bluetoothfake_main_cases fuel h)
      as [([Hd|Hs] & _)|[(_ & _ & _ & Hres & Hev)|(_ & _ & Hb & _)]].
    + lia.
    + fold sock in Hs. lia.
    + split; [exact Hres|]. split; [|apply completed_passes_all, Hbf].
      rewrite Hev. unfold closes. cbn [omap list_omap]. apply while_true_omap_nil.
      intros i h'.
      exact (proj1 (proj2 (proj2 (proj2 (bluetoothfake_pass_shows _ i h'))))).
    + fold sock in Hb. unfold BluetoothFake.main_loop in Hb.
      rewrite (proj1 (while_true_never_breaks _ Hbf fuel 0 _)) in Hb. discriminate Hb.
Qed.

Lemma main_runs_on_while_fatal_steps_succeed_witness :
  result (@Linux.main address_fails 7) [] = None /\
  result (@BluetoothFake.main address_fails 7) [] = None.
Proof.
  assert (Hok : forall h s c,
             (forall mac, c <> LE_SET_RANDOM_ADDRESS mac) ->
             c <> LE_SET_ADVERTISE_ENABLE 0 ->
             0 <= @hci_send_cmd_ret address_fails h s c).
  { intros h s c Hc _. destruct c; simpl; try lia.
    exfalso. exact (Hc bdaddr eq_refl). }
  destruct (@main_runs_on_while_fatal_steps_succeed address_fails Hok
              ltac:(simpl; lia) ltac:(simpl; lia) 7 [])
    as ((Hlin & _) & (Hbf & _)).
  split; [exact Hlin|exact Hbf].
Defined.

(** X12. [main] returns 1 exactly when no device could be opened (in
    bluetoothFake.c also when no route was found); it then has only
    reported the failure and has sent no command.  No other status than
    0 and 1 is ever returned. *)
Theorem main_exit_status `{BlueZ} (fuel : nat) (h : list event) :
  let sock := hci_open_dev hci_get_route in
  ((result (Linux.main fuel) h = Some 1 <-> sock < 0) /\
   (sock < 0 -> events (Linux.main fuel) h = [Perror "opening HCI device"]) /\
   (forall st, result (Linux.main fuel) h = Some st -> st = 0 \/ st = 1)) /\
  ((result (BluetoothFake.main fuel) h = Some 1 <-> hci_get_route < 0 \/ sock < 0) /\
   (hci_get_route < 0 ->
    events (BluetoothFake.main fuel) h = [Perror "Nenhum dispositivo HCI disponível"]) /\
   (0 <= hci_get_route -> sock < 0 ->
    events (BluetoothFake.main fuel) h = [Perror "Falha ao abrir o dispositivo HCI"]) /\
   (forall st, result (BluetoothFake.main fuel) h = Some st -> st = 0 \/ st = 1)).
Proof.
  intros sock. subst sock. split.
  - destruct (linux_main_cases fuel h)
      as [(Hs & Hres & Hev)|[(Hs & _ & Hres & _)|(Hs & _ & Hres & _)]];
      rewrite Hres.
    + split; [tauto|]. split; [intros _; exact Hev|].
      intros st Hst. injection Hst as <-. auto.
    + split; [split; [discriminate|lia]|]. split; [lia|]. discriminate.
    + split; [split; [discriminate|lia]|]. split; [lia|].
      intros st Hst. injection Hst as <-. auto.
  - assert (Hearly :
        (hci_get_route < 0 ->
         events (BluetoothFake.main fuel) h = [Perror "Nenhum dispositivo HCI disponível"]) /\
        (0 <= hci_get_route -> hci_open_dev hci_get_route < 0 ->
         events (BluetoothFake.main fuel) h = [Perror "Falha ao abrir o dispositivo HCI"])).
    { unfold BluetoothFake.main. split.
      - intros Hd. replace (hci_get_route <? 0) with true
          by (symmetry; apply Z.ltb_lt; exact Hd). reflexivity.
      - intros Hd Hs. replace (hci_get_route <? 0) with false
          by (symmetry; apply Z.ltb_ge; exact Hd).
        replace (hci_open_dev hci_get_route <? 0) with true
          by (symmetry; apply Z.ltb_lt; exact Hs).
        reflexivity. }
    destruct Hearly as [He1 He2].
    destruct (bluetoothfake_main_cases fuel h)
      as [(Hopen & Hres & _)|[(Hd & Hs & _ & Hres & _)|(Hd & Hs & _ & Hres & _)]];
      rewrite Hres.
    + split; [tauto|]. split; [exact He1|]. split; [exact He2|].
      intros st Hst. injection Hst as <-. auto.
    + split; [split; [discriminate|lia]|]. split; [exact He1|]. split; [exact He2|].
      discriminate.
    + split; [split; [discriminate|lia]|]. split; [exact He1|]. split; [exact He2|].
      intros st Hst. injection Hst as <-. auto.
Qed.

Lemma linux_loop_closes_nothing `{BlueZ} (fuel : nat) (sock idx : Z) (h : list event) :
  closes (events (Linux.main_loop fuel sock idx) h) = [] /\
  Forall (fun s => s = sock)
    (command_sockets (events (Linux.main_loop fuel sock idx) h)).
Proof.
  split.
  - apply while_true_omap_nil. intros i h'.
    exact (proj1 (proj2 (proj2 (proj2 (linux_pass_shows sock i h'))))).
  - apply while_true_omap_Forall. intros i h'.
    exact (proj1 (proj2 (proj2 (proj2 (proj2 (linux_pass_shows sock i h')))))).
Qed.

Lemma bluetoothfake_loop_closes_nothing `{BlueZ} (fuel : nat) (sock idx : Z)
      (h : list event) :
  closes (events (BluetoothFake.main_loop fuel sock idx) h) = [] /\
  Forall (fun s => s = sock)
    (command_sockets (events (BluetoothFake.main_loop fuel sock idx) h)).
Proof.
  split.
  - apply while_true_omap_nil. intros i h'.
    exact (proj1 (proj2 (proj2 (proj2 (bluetoothfake_pass_shows sock i h'))))).
  - apply while_true_omap_Forall. intros i h'.
    exact (proj1 (proj2 (proj2 (proj2 (proj2 (bluetoothfake_pass_shows sock i h')))))).
Qed.

(** X13. In every run of [main] of linux.c and of bluetoothFake.c every
    command is sent on the socket that was opened, the socket is closed
    at most once, only when [main] returns 0, and the close is then the
    last event of the run: nothing is sent on a closed socket. *)
Theorem socket_closed_once_at_the_end `{BlueZ} (fuel : nat) (h : list event) :
  let sock := hci_open_dev hci_get_route in
  (Forall (fun s => s = sock) (command_sockets (events (Linux.main fuel) h)) /\
   closes (events (Linux.main fuel) h)
     = match result (Linux.main fuel) h with Some 0 => [sock] | _ => [] end /\
   (result (Linux.main fuel) h = Some 0 ->
    last (events (Linux.main fuel) h) = Some (Close sock))) /\
  (Forall (fun s => s = sock) (command_sockets (events (BluetoothFake.main fuel) h)) /\
   closes (events (BluetoothFake.main fuel) h)
     = match result (BluetoothFake.main fuel) h with Some 0 => [sock] | _ => [] end /\
   (result (BluetoothFake.main fuel) h = Some 0 ->
    last (events (BluetoothFake.main fuel) h) = Some (Close sock))).
Proof.
  intros sock. subst sock. split.
  - destruct (linux_main_cases fuel h)
      as [(_ & Hres & Hev)|[(_ & _ & Hres & Hev)|(_ & _ & Hres & log & Hev & Hlog)]];
      rewrite Hres, Hev.
    + split; [constructor|]. split; [reflexivity|discriminate].
    + destruct (linux_loop_closes_nothing fuel (hci_open_dev hci_get_route) 0 h) as [Hc Hs].
      split; [exact Hs|]. split; [exact Hc|discriminate].
    + destruct (linux_loop_closes_nothing fuel (hci_open_dev hci_get_route) 0 h) as [Hc Hs].
      split; [|split].
      * unfold command_sockets in *. rewrite omap_app. apply Forall_app.
        split; [exact Hs|]. destruct Hlog as [-> | ->]; repeat constructor.
      * unfold closes in *. rewrite omap_app, Hc.
        destruct Hlog as [-> | ->]; reflexivity.
      * intros _.
        change (?c :: log ++ [?d]) with ((c :: log) ++ [d]).
        rewrite app_assoc. apply last_snoc.
  - destruct (bluetoothfake_main_cases fuel h)
      as [(_ & Hres & msg & Hev)|[(_ & _ & _ & Hres & Hev)
                                 |(_ & _ & _ & Hres & log & Hev & Hlog)]];
      rewrite Hres, Hev.
    + split; [constructor|]. split; [reflexivity|discriminate].
    + destruct (bluetoothfake_loop_closes_nothing fuel (hci_open_dev hci_get_route) 0
                  (h ++ [Printf ("Iniciando simulação de dispositivos BLE..." +:+ newline) []]))
        as [Hc Hs].
      split; [exact Hs|]. split; [exact Hc|discriminate].
    + destruct (bluetoothfake_loop_closes_nothing fuel (hci_open_dev hci_get_route) 0
                  (h ++ [Printf ("Iniciando simulação de dispositivos BLE..." +:+ newline) []]))
        as [Hc Hs].
      split; [|split].
      * unfold command_sockets in *. cbn [omap list_omap]. rewrite omap_app.
        apply Forall_app.
        split; [exact Hs|]. destruct Hlog as [-> | ->]; repeat constructor.
      * unfold closes in *. cbn [omap list_omap]. rewrite omap_app, Hc.
        destruct Hlog as [-> | ->]; reflexivity.
      * intros _.
        match goal with
        | |- last (?a :: ?l ++ ?b :: ?c :: log ++ [?d]) = _ =>
            change (a :: l ++ b :: c :: log ++ [d])
              with ((a :: l) ++ (b :: c :: log) ++ [d])
        end.
        rewrite !app_assoc. apply last_snoc.
Qed.

(** X14. The loops wait once per pass that reached its end and not
    after a pass that left: the trace of linux.c holds one [sleep(1)]
    per completed pass, that of bluetoothFake.c one [sleep(2)], and
    there are at most [fuel] of them. *)
Theorem one_sleep_per_completed_pass `{BlueZ} (fuel : nat) (sock idx : Z)
        (h : list event) :
  (sleeps (events (Linux.main_loop fuel sock idx) h)
     = replicate (completed_passes (Linux.loop_body sock) fuel idx h) 1 /\
   (completed_passes (Linux.loop_body sock) fuel idx h <= fuel)%nat) /\
  (sleeps (events (BluetoothFake.main_loop fuel sock idx) h)
     = replicate (completed_passes (BluetoothFake.loop_body sock) fuel idx h) 2 /\
   (completed_passes (BluetoothFake.loop_body sock) fuel idx h <= fuel)%nat).
Proof.
  split; (split; [|apply completed_passes_le]).
  - apply while_true_sleeps. intros i h'.
    exact (proj2 (proj2 (proj2 (proj2 (proj2 (linux_pass_shows sock i h')))))).
  - apply while_true_sleeps. intros i h'.
    exact (proj2 (proj2 (proj2 (proj2 (proj2 (bluetoothfake_pass_shows sock i h')))))).
Qed.

(** X15. The GAP callback of ESP32.c logs at most one line per event,
    none for an event other than the two it knows, and an error line
    exactly for an advertising-start event whose status is not
    success. *)
Theorem gap_cb_reports (success : Z) (event : esp_gap_ble_cb_event_t) (status : Z) :
  (length (gap_cb success event status) <= 1)%nat /\
  (forall code, gap_cb success (ESP_GAP_BLE_OTHER_EVT code) status = []) /\
  (existsb is_error_line (gap_cb success event status) = true <->
   event = ESP_GAP_BLE_ADV_START_COMPLETE_EVT /\ status <> success).
Proof.
  split; [|split; [reflexivity|]].
  - destruct event; cbn; [lia| |lia].
    destruct (status =? success); cbn; lia.
  - destruct event; cbn.
    + split; [discriminate|intros [Hd _]; discriminate Hd].
    + destruct (Z.eqb_spec status success) as [Heq|Hne]; cbn.
      * split; [discriminate|tauto].
      * split; auto.
    + split; [discriminate|intros [Hd _]; discriminate Hd].
Qed.

Lemma esp32_identity_schedule_witness :
  result (ESP32.advertising_loop_task 5 1) [] = Running 0 /\
  logged_names (events (ESP32.advertising_loop_task 5 1) []) !! 4%nat = Some "DISP_03".
Proof.
  destruct (esp32_identity_schedule 1 ltac:(lia) 5 []) as (Hres & Hpass & _).
  split; [exact Hres|].
  exact (proj1 (Hpass 4%nat ltac:(lia))).
Defined.

Lemma linux_identity_schedule_witness :
  printed_names (events (@BluetoothFake.main_loop stop_fails 4 3 2) []) !! 2%nat
    = Some "HRM_Brac_02".
Proof.
  destruct (@linux_identity_schedule stop_fails 2 ltac:(lia) 4 3 [] 2) as [_ Hbf].
  exact (proj1 (Hbf ltac:(vm_compute; lia))).
Defined.

(** * A failed stop does not end the cycle *)

(** The loop of bluetoothFake.c, once it has left, ends with a failed
    fatal command and its report. *)
Lemma bluetoothfake_loop_break `{BlueZ} (sock : Z) (fuel : nat) :
  forall idx h,
    result (BluetoothFake.main_loop fuel sock idx) h = Broke ->
    exists pre c msg,
      events (BluetoothFake.main_loop fuel sock idx) h
        = pre ++ [HciSendCmd sock c; Perror msg] /\
      hci_send_cmd_ret (h ++ pre) sock c < 0 /\
      fatal_cmd c.
Proof.
  unfold BluetoothFake.main_loop.
  induction fuel as [|fuel IH]; intros idx h Hb; [discriminate Hb|].
  cbn [while_true] in *. rewrite result_bind in Hb. rewrite events_bind.
  destruct (result (BluetoothFake.loop_body sock idx) h) as [idx'|] eqn:Hr.
  - destruct (IH _ _ Hb) as (pre & c & msg & Hev & Hlt & Hc).
    exists (events (BluetoothFake.loop_body sock idx) h ++ pre), c, msg.
    rewrite Hev, !app_assoc. auto.
  - destruct (bluetoothfake_pass_break sock idx h Hr)
      as (pre & c & msg & Hev & Hlt & Hc).
    exists pre, c, msg. cbn [events ret snd]. rewrite app_nil_r. auto.
Qed.

(** C9. In linux.c (and the duplicate) and in bluetoothFake.c every
    pass sends the stop command, reports a negative reply with [perror]
    and nothing else, and sends the set-address command next, whatever
    the reply to stop was.  The failure does not end the cycle: a pass
    leaves the loop only directly after a set-parameters or enable
    command (in bluetoothFake.c also a set-payload command) whose reply
    was negative, and so does the loop, whose trace is the trace of its
    passes; and when these commands are accepted, whatever the replies
    to stop are, every pass performs all its operations up to start and
    the loop is still running after any number of passes. *)
Theorem stop_failure_is_recoverable `{BlueZ} (sock idx : Z) (h : list event) :
  (let line := Printf ("Broadcasting device %s with MAC %s" +:+ newline)
                 [at_index "" Linux.names idx; at_index "" Linux.macs_str idx] in
   exists rest,
     events (Linux.loop_body sock idx) h =
     line :: HciSendCmd sock (LE_SET_ADVERTISE_ENABLE 0)
       :: (if hci_send_cmd_ret (h ++ [line]) sock (LE_SET_ADVERTISE_ENABLE 0) <? 0
           then [Perror "Disable advertising failed"] else [])
       ++ HciSendCmd sock (LE_SET_RANDOM_ADDRESS (at_index [] Linux.macs idx))
       :: rest) /\
  (let line := Printf ("Transmitindo como: %s | MAC: %s" +:+ newline)
                 [at_index "" BluetoothFake.names idx;
                  at_index "" BluetoothFake.macs_str idx] in
   exists rest,
     events (BluetoothFake.loop_body sock idx) h =
     line :: HciSendCmd sock (LE_SET_ADVERTISE_ENABLE 0)
       :: (if hci_send_cmd_ret (h ++ [line]) sock (LE_SET_ADVERTISE_ENABLE 0) <? 0
           then [Perror "Disable advertising failed"] else [])
       ++ HciSendCmd sock (LE_SET_RANDOM_ADDRESS (at_index [] BluetoothFake.macs idx))
       :: rest) /\
  (forall fuel,
      Forall (stop_then_address sock) (cycles (Linux.loop_body sock) fuel idx h) /\
      Forall (stop_then_address sock) (cycles (BluetoothFake.loop_body sock) fuel idx h)) /\
  (result (Linux.loop_body sock idx) h = None ->
   exists pre c msg,
     events (Linux.loop_body sock idx) h = pre ++ [HciSendCmd sock c; Perror msg] /\
     hci_send_cmd_ret (h ++ pre) sock c < 0 /\
     params_or_start c) /\
  (result (BluetoothFake.loop_body sock idx) h = None ->
   exists pre c msg,
     events (BluetoothFake.loop_body sock idx) h
       = pre ++ [HciSendCmd sock c; Perror msg] /\
     hci_send_cmd_ret (h ++ pre) sock c < 0 /\
     fatal_cmd c) /\
  (forall fuel,
      events (Linux.main_loop fuel sock idx) h
        = concat (cycles (Linux.loop_body sock) fuel idx h) /\
      events (BluetoothFake.main_loop fuel sock idx) h
        = concat (cycles (BluetoothFake.loop_body sock) fuel idx h) /\
      (result (Linux.main_loop fuel sock idx) h = Broke ->
       exists pre c msg,
         events (Linux.main_loop fuel sock idx) h
           = pre ++ [HciSendCmd sock c; Perror msg] /\
         hci_send_cmd_ret (h ++ pre) sock c < 0 /\
         params_or_start c) /\
      (result (BluetoothFake.main_loop fuel sock idx) h = Broke ->
       exists pre c msg,
         events (BluetoothFake.main_loop fuel sock idx) h
           = pre ++ [HciSendCmd sock c; Perror msg] /\
         hci_send_cmd_ret (h ++ pre) sock c < 0 /\
         fatal_cmd c)) /\
  ((forall h' s c,
       (forall mac, c <> LE_SET_RANDOM_ADDRESS mac) ->
       c <> LE_SET_ADVERTISE_ENABLE 0 ->
       0 <= hci_send_cmd_ret h' s c) ->
   forall fuel,
     (result (Linux.loop_body sock idx) h = Some (next_idx idx) /\
      result (Linux.main_loop fuel sock idx) h = Running (cursor_after fuel idx) /\
      length (cycles (Linux.loop_body sock) fuel idx h) = fuel /\
      Forall (fun c => radio_ops c = [Stop; SetAddress; SetParameters; Start])
        (cycles (Linux.loop_body sock) fuel idx h)) /\
     (result (BluetoothFake.loop_body sock idx) h = Some (next_idx idx) /\
      result (BluetoothFake.main_loop fuel sock idx) h
        = Running (cursor_after fuel idx) /\
      length (cycles (BluetoothFake.loop_body sock) fuel idx h) = fuel /\
      Forall (fun c => radio_ops c = switch_order)
        (cycles (BluetoothFake.loop_body sock) fuel idx h))).
Proof.
  split; [apply linux_pass_stop_address|].
  split; [apply bluetoothfake_pass_stop_address|].
  split.
  { intros fuel. split; apply cycles_Forall; intros i h'.
    - destruct (linux_pass_stop_address sock i h') as [rest Hrest].
      eapply stop_then_address_intro, Hrest.
    - destruct (bluetoothfake_pass_stop_address sock i h') as [rest Hrest].
      eapply stop_then_address_intro, Hrest. }
  split; [apply linux_pass_break|].
  split; [apply bluetoothfake_pass_break|].
  split.
  { intros fuel.
    split; [apply while_true_events|].
    split; [apply while_true_events|].
    split; [apply linux_loop_break|apply bluetoothfake_loop_break]. }
  intros Hok fuel. split.
  - destruct (while_true_never_breaks (Linux.loop_body sock)
                (fun i h' => proj1 (linux_pass_completes Hok sock i h'))
                fuel idx h) as [Hrun Hlen].
    split; [apply (linux_pass_completes Hok)|].
    split; [exact Hrun|]. split; [exact Hlen|].
    apply (cycles_Forall (fun c => radio_ops c = [Stop; SetAddress; SetParameters; Start])).
    intros i h'. apply (linux_pass_completes Hok).
  - destruct (while_true_never_breaks (BluetoothFake.loop_body sock)
                (fun i h' => proj1 (bluetoothfake_pass_completes Hok sock i h'))
                fuel idx h) as [Hrun Hlen].
    split; [apply (bluetoothfake_pass_completes Hok)|].
    split; [exact Hrun|]. split; [exact Hlen|].
    apply (cycles_Forall (fun c => radio_ops c = switch_order)).
    intros i h'. apply (bluetoothfake_pass_completes Hok).
Qed.

Lemma stop_failure_is_recoverable_witness :
  (forall h, @hci_send_cmd_ret stop_fails h 3 (LE_SET_ADVERTISE_ENABLE 0) < 0) /\
  result (@Linux.main_loop stop_fails 4 3 0) [] = Running 1 /\
  result (@BluetoothFake.main_loop stop_fails 4 3 0) [] = Running 1 /\
  Forall (fun c => radio_ops c = switch_order)
    (cycles (@BluetoothFake.loop_body stop_fails 3) 4 0 []).
Proof.
  assert (Hok : forall h' s c,
             (forall mac, c <> LE_SET_RANDOM_ADDRESS mac) ->
             c <> LE_SET_ADVERTISE_ENABLE 0 ->
             0 <= @hci_send_cmd_ret stop_fails h' s c).
  { intros h' s c _ Hc. destruct c as [| | |enable]; simpl; try lia.
    destruct enable; [exfalso; exact (Hc eq_refl)|lia|lia]. }
  split; [intros; simpl; lia|].
  destruct (proj2 (proj2 (proj2 (proj2 (proj2 (proj2
              (@stop_failure_is_recoverable stop_fails 3 0 []))))))
              Hok 4%nat)
    as ((_ & Hlin & _) & (_ & Hbf & _ & Hops)).
  split; [exact Hlin|]. split; [exact Hbf|exact Hops].
Defined.
